(** * signal-bot: the per-chat lock of [signalbot/plugins/plugin.py]

    [ChatThreadcount] counts the threads that handle messages of a chat and
    [ChatLock] lets one of them run alone.  Both are built from
    [threading.Lock] and [threading.Condition], so the development models
    them as a transition system: every thread has a program counter that
    names a line of [plugin.py], the locks and counters are shared, and one
    transition is one primitive operation of one thread. *)

From Stdlib Require Import ZArith Lia Bool.
From stdpp Require Import base list strings.

Open Scope Z_scope.

(** ** Shared data *)

Abbreviation tid := nat.

(** The three locks of one chat: [ChatLock._lock], [ChatLock._entry_lock]
    and the lock inside [ChatThreadcount._condition]. *)
Inductive lock_id := L_lock | L_entry_lock | L_condition.

(** A [threading.Lock] is locked or unlocked.  [Some t] is "locked", and
    [t] records the thread whose [acquire] locked it. *)
Record gate := Gate {
  g_count : Z;                           (* ChatThreadcount._count *)
  g_blocking_candidates_count : Z;       (* ChatThreadcount._blocking_candidates_count *)
  g_lock : option tid;                   (* ChatLock._lock *)
  g_entry_lock : option tid;             (* ChatLock._entry_lock *)
  g_condition : option tid;              (* lock of ChatThreadcount._condition *)
  g_waiters : list tid                   (* threads inside _condition.wait(), oldest first *)
}.

(** [ChatLock.__init__] with [ChatThreadcount.__init__]. *)
Definition ChatLock_init : gate := Gate 0 0 None None None [].

Definition lock_of (k : lock_id) (g : gate) : option tid :=
  match k with
  | L_lock => g_lock g
  | L_entry_lock => g_entry_lock g
  | L_condition => g_condition g
  end.

Definition set_lock (k : lock_id) (o : option tid) (g : gate) : gate :=
  match k with
  | L_lock =>
      Gate (g_count g) (g_blocking_candidates_count g) o (g_entry_lock g)
           (g_condition g) (g_waiters g)
  | L_entry_lock =>
      Gate (g_count g) (g_blocking_candidates_count g) (g_lock g) o
           (g_condition g) (g_waiters g)
  | L_condition =>
      Gate (g_count g) (g_blocking_candidates_count g) (g_lock g)
           (g_entry_lock g) o (g_waiters g)
  end.

Definition set_count (z : Z) (g : gate) : gate :=
  Gate z (g_blocking_candidates_count g) (g_lock g) (g_entry_lock g)
       (g_condition g) (g_waiters g).

Definition set_blocking_candidates_count (z : Z) (g : gate) : gate :=
  Gate (g_count g) z (g_lock g) (g_entry_lock g) (g_condition g) (g_waiters g).

Definition set_waiters (w : list tid) (g : gate) : gate :=
  Gate (g_count g) (g_blocking_candidates_count g) (g_lock g) (g_entry_lock g)
       (g_condition g) w.

(** ** Program points

    One constructor per primitive operation of the two classes; the
    number is the line of [plugin.py]. *)
Inductive pc :=
  (* user code *)
  | NotStarted               (* thread made by Plugin._start, not yet running *)
  | User                     (* code outside the two classes is running *)
  | Finished                 (* the thread's function has ended *)
  (* ChatThreadcount.__enter__ *)
  | TcEnter_entry_acquire    (* 23  with self._chat_lock.get_suspend_entry_lock(): *)
  | TcEnter_lock_acquire     (* 30 -> 115  with self._lock: *)
  | TcEnter_lock_release     (* 116 end of that with *)
  | TcEnter_cond_acquire     (* 33  with self._condition: *)
  | TcEnter_incr             (* 34  self._count += 1 *)
  | TcEnter_cond_release     (* 34  end of with self._condition *)
  | TcEnter_entry_release    (* 34  end of with ..entry_lock; 36 return self *)
  (* ChatThreadcount.__exit__ *)
  | TcExit_cond_acquire      (* 39 *)
  | TcExit_decr              (* 41  self._count -= 1 *)
  | TcExit_notify            (* 46  self._condition.notify() *)
  | TcExit_cond_release      (* 46  end of with *)
  (* ChatThreadcount.add_blocking_candidate *)
  | Add_cond_acquire         (* 49 *)
  | Add_incr                 (* 50 *)
  | Add_notify_all           (* 51 *)
  | Add_cond_release         (* 51  end of with *)
  (* ChatThreadcount.remove_blocking_candidate *)
  | Rem_cond_acquire         (* 54 *)
  | Rem_decr                 (* 55 *)
  | Rem_notify_all           (* 56 *)
  | Rem_cond_release         (* 56  end of with *)
  (* ChatThreadcount.wait_until_only_blocking_candidates *)
  | Wait_cond_acquire        (* 59 *)
  | Wait_test                (* 60  while self._count > self._blocking_candidates_count: *)
  | Wait_blocked             (* 61  inside wait(), not yet notified *)
  | Wait_reacquire           (* 61  inside wait(), notified, taking the lock again *)
  | Wait_cond_release        (* 61  end of with *)
  (* ChatLock.__enter__ ; line 80 is add_blocking_candidate *)
  | ClEnter_entry_acquire    (* 84  with self._entry_lock: *)
  | ClEnter_try              (* 88  unblocked = self._lock.acquire(False) *)
  | ClEnter_if_unblocked     (* 97  if unblocked: *)
  | ClEnter_entry_release    (* 98  end of with self._entry_lock *)
  | ClEnter_if_not_unblocked (* 105 if not unblocked: raise *)
  (* ChatLock.__exit__ ; line 112 is remove_blocking_candidate *)
  | ClExit_lock_release.     (* 109 self._lock.release() *)

Global Instance pc_eq_dec : EqDecision pc.
Proof. solve_decision. Defined.

(** ** Thread-local data *)
Record local := Local {
  l_pc : pc;
  l_unblocked : bool;        (* the variable [unblocked] of ChatLock.__enter__ *)
  l_in_threadcount : bool;   (* inside the with of Plugin._thread_start, line 127 *)
  l_in_chat_lock : nat;      (* [with chat_lock:] blocks entered and not yet left *)
  l_target_raised : bool;    (* target( *args ) of _thread_start ended by raising *)
  l_busy_seen : nat          (* how often ChatLock.__enter__ raised in this thread *)
}.

Definition local_init : local := Local NotStarted false false 0 false 0.

Definition goto (p : pc) (l : local) : local :=
  Local p (l_unblocked l) (l_in_threadcount l) (l_in_chat_lock l)
        (l_target_raised l) (l_busy_seen l).

Definition set_unblocked (b : bool) (l : local) : local :=
  Local (l_pc l) b (l_in_threadcount l) (l_in_chat_lock l)
        (l_target_raised l) (l_busy_seen l).

Definition set_in_threadcount (b : bool) (l : local) : local :=
  Local (l_pc l) (l_unblocked l) b (l_in_chat_lock l)
        (l_target_raised l) (l_busy_seen l).

Definition set_in_chat_lock (n : nat) (l : local) : local :=
  Local (l_pc l) (l_unblocked l) (l_in_threadcount l) n
        (l_target_raised l) (l_busy_seen l).

Definition set_target_raised (b : bool) (l : local) : local :=
  Local (l_pc l) (l_unblocked l) (l_in_threadcount l) (l_in_chat_lock l)
        b (l_busy_seen l).

Definition set_busy_seen (n : nat) (l : local) : local :=
  Local (l_pc l) (l_unblocked l) (l_in_threadcount l) (l_in_chat_lock l)
        (l_target_raised l) n.

(** ** Primitive operations *)

Inductive event :=
  | EvAcquire (k : lock_id)            (* blocking acquire returned *)
  | EvTryAcquire (k : lock_id) (ok : bool)  (* acquire(False) returned [ok] *)
  | EvRelease (k : lock_id)
  | EvCountIncr | EvCountDecr          (* _count += 1, -= 1 *)
  | EvCandIncr | EvCandDecr            (* _blocking_candidates_count += 1, -= 1 *)
  | EvNotify | EvNotifyAll
  | EvIf (b : bool)                    (* [unblocked], tested at line 97 *)
  | EvWhile (b : bool)                 (* the condition of line 60 *)
  | EvWait                             (* wait() released the lock and sleeps *)
  | EvWoken                            (* the sleeping thread was notified *)
  | EvReturn                           (* a method returned to user code *)
  | EvRaiseBusy.                       (* 106 raise Exception(...) *)

(** What one attempt to run the next operation of a thread gives:
    it runs, it cannot run now (the lock is taken, nobody has notified), or
    [threading] raises [RuntimeError] (release of an unlocked lock, notify
    without the lock). *)
Inductive outcome :=
  | Ok (e : event) (g : gate) (l : local)
  | Blocked
  | Fault.

Section Exec.
Variable t : tid.

(** [Lock.acquire()].  The lock of the condition is an [RLock], which its
    owner could take again; no [with self._condition:] is nested, so no
    thread does. *)
Definition do_acquire (k : lock_id) (next : pc) (g : gate) (l : local) : outcome :=
  match lock_of k g with
  | None => Ok (EvAcquire k) (set_lock k (Some t) g) (goto next l)
  | Some _ => Blocked
  end.

(** [Lock.release()]: any thread may release a locked [Lock]; the lock of
    a [Condition] is an [RLock] and only its owner may. *)
Definition do_release (k : lock_id) (next : pc) (g : gate) (l : local) : outcome :=
  match lock_of k g with
  | None => Fault
  | Some o =>
      match k with
      | L_condition =>
          if decide (o = t)
          then Ok (EvRelease k) (set_lock k None g) (goto next l)
          else Fault
      | _ => Ok (EvRelease k) (set_lock k None g) (goto next l)
      end
  end.

(** An update of a counter, done with the condition's lock held. *)
Definition do_update (e : event) (f : gate -> gate) (next : pc)
    (g : gate) (l : local) : outcome :=
  Ok e (f g) (goto next l).

(** [Condition.notify()] wakes the oldest waiter, [notify_all()] wakes
    all of them; both need the condition's lock. *)
Definition notify (w : list tid) : list tid := tail w.
Definition notify_all (w : list tid) : list tid := [].

Definition do_notify (e : event) (f : list tid -> list tid) (next : pc)
    (g : gate) (l : local) : outcome :=
  if decide (g_condition g = Some t)
  then Ok e (set_waiters (f (g_waiters g)) g) (goto next l)
  else Fault.

(** One operation of thread [t]. *)
Definition exec (g : gate) (l : local) : outcome :=
  match l_pc l with
  | NotStarted | User | Finished => Blocked
  (* ChatThreadcount.__enter__ *)
  | TcEnter_entry_acquire => do_acquire L_entry_lock TcEnter_lock_acquire g l
  | TcEnter_lock_acquire => do_acquire L_lock TcEnter_lock_release g l
  | TcEnter_lock_release => do_release L_lock TcEnter_cond_acquire g l
  | TcEnter_cond_acquire => do_acquire L_condition TcEnter_incr g l
  | TcEnter_incr =>
      do_update EvCountIncr (set_count (g_count g + 1)) TcEnter_cond_release g l
  | TcEnter_cond_release => do_release L_condition TcEnter_entry_release g l
  | TcEnter_entry_release =>
      do_release L_entry_lock User g (set_in_threadcount true l)
  (* ChatThreadcount.__exit__ *)
  | TcExit_cond_acquire => do_acquire L_condition TcExit_decr g l
  | TcExit_decr =>
      do_update EvCountDecr (set_count (g_count g - 1)) TcExit_notify g l
  | TcExit_notify => do_notify EvNotify notify TcExit_cond_release g l
  | TcExit_cond_release =>
      do_release L_condition Finished g (set_in_threadcount false l)
  (* add_blocking_candidate *)
  | Add_cond_acquire => do_acquire L_condition Add_incr g l
  | Add_incr =>
      do_update EvCandIncr
        (set_blocking_candidates_count (g_blocking_candidates_count g + 1))
        Add_notify_all g l
  | Add_notify_all => do_notify EvNotifyAll notify_all Add_cond_release g l
  | Add_cond_release => do_release L_condition ClEnter_entry_acquire g l
  (* remove_blocking_candidate *)
  | Rem_cond_acquire => do_acquire L_condition Rem_decr g l
  | Rem_decr =>
      do_update EvCandDecr
        (set_blocking_candidates_count (g_blocking_candidates_count g - 1))
        Rem_notify_all g l
  | Rem_notify_all => do_notify EvNotifyAll notify_all Rem_cond_release g l
  | Rem_cond_release => do_release L_condition User g l
  (* wait_until_only_blocking_candidates *)
  | Wait_cond_acquire => do_acquire L_condition Wait_test g l
  | Wait_test =>
      if g_blocking_candidates_count g <? g_count g
      then
        (* wait(): needs the lock, queues the thread and releases the lock *)
        if decide (g_condition g = Some t)
        then Ok EvWait
                (set_lock L_condition None (set_waiters (g_waiters g ++ [t]) g))
                (goto Wait_blocked l)
        else Fault
      else Ok (EvWhile false) g (goto Wait_cond_release l)
  | Wait_blocked =>
      if decide (t ∈ g_waiters g) then Blocked
      else Ok EvWoken g (goto Wait_reacquire l)
  | Wait_reacquire => do_acquire L_condition Wait_test g l
  | Wait_cond_release => do_release L_condition ClEnter_entry_release g l
  (* ChatLock.__enter__ *)
  | ClEnter_entry_acquire => do_acquire L_entry_lock ClEnter_try g l
  | ClEnter_try =>
      match g_lock g with
      | None =>
          Ok (EvTryAcquire L_lock true) (set_lock L_lock (Some t) g)
             (goto ClEnter_if_unblocked (set_unblocked true l))
      | Some _ =>
          Ok (EvTryAcquire L_lock false) g
             (goto ClEnter_if_unblocked (set_unblocked false l))
      end
  | ClEnter_if_unblocked =>
      if l_unblocked l
      then Ok (EvIf true) g (goto Wait_cond_acquire l)
      else Ok (EvIf false) g (goto ClEnter_entry_release l)
  | ClEnter_entry_release => do_release L_entry_lock ClEnter_if_not_unblocked g l
  | ClEnter_if_not_unblocked =>
      if l_unblocked l
      then Ok EvReturn g
              (goto User (set_in_chat_lock (S (l_in_chat_lock l)) l))
      else Ok EvRaiseBusy g
              (goto User (set_busy_seen (S (l_busy_seen l)) l))
  (* ChatLock.__exit__ *)
  | ClExit_lock_release => do_release L_lock Rem_cond_acquire g l
  end.
End Exec.

(** ** User code

    The classes are context managers: user code enters them with [with]
    and Python calls [__exit__] when the body ends, by [return] or by an
    exception.  [Plugin._thread_start] (line 127) is
    [with self.chat_lock.get_threadcount_context(): target( *args )]; the
    target and any other thread may use [with chat_lock:] blocks. *)
Inductive action :=
  | A_thread_start               (* a thread of Plugin._start begins _thread_start *)
  | A_direct                     (* a thread that does not run _thread_start begins *)
  | A_with_chat_lock             (* user code reaches [with chat_lock:] *)
  | A_leave_chat_lock            (* the body of a [with chat_lock:] ends *)
  | A_ends (raised : bool).      (* user code ends, by return or by raising *)

Definition user_step (a : action) (l : local) : option local :=
  match a, l_pc l with
  | A_thread_start, NotStarted => Some (goto TcEnter_entry_acquire l)
  | A_direct, NotStarted => Some (goto User (set_in_threadcount false l))
  | A_with_chat_lock, User => Some (goto Add_cond_acquire l)
  | A_leave_chat_lock, User =>
      match l_in_chat_lock l with
      | S n => Some (goto ClExit_lock_release (set_in_chat_lock n l))
      | O => None
      end
  | A_ends raised, User =>
      match l_in_chat_lock l with
      | S _ => None
      | O =>
          if l_in_threadcount l
          then Some (goto TcExit_cond_acquire (set_target_raised raised l))
          else Some (goto Finished (set_target_raised raised l))
      end
  | _, _ => None
  end.

(** ** The transition system *)
Record state := State { st_gate : gate; st_threads : list local }.

Inductive move := M_exec | M_user (a : action).

Definition fire (t : tid) (m : move) (s : state) : option state :=
  match st_threads s !! t with
  | None => None
  | Some l =>
      match m with
      | M_exec =>
          match exec t (st_gate s) l with
          | Ok _ g' l' => Some (State g' (<[t := l']> (st_threads s)))
          | _ => None
          end
      | M_user a =>
          match user_step a l with
          | Some l' => Some (State (st_gate s) (<[t := l']> (st_threads s)))
          | None => None
          end
      end
  end.

Definition step (s s' : state) : Prop := ∃ t m, fire t m s = Some s'.

(** A new chat lock and [n] threads that have not started. *)
Definition init (n : nat) : state := State ChatLock_init (replicate n local_init).

Inductive reachable : state -> Prop :=
  | reachable_init n : reachable (init n)
  | reachable_step s s' : reachable s -> step s s' -> reachable s'.

(** Running a given schedule. *)
Fixpoint run_schedule (sch : list (tid * move)) (s : state) : option state :=
  match sch with
  | [] => Some s
  | (t, m) :: sch' =>
      match fire t m s with
      | Some s' => run_schedule sch' s'
      | None => None
      end
  end.

(** ** One thread running alone

    [run n t g l] lets thread [t] run until it is back in user code, for at
    most [n] operations, and lists the operations. *)
Inductive status := Returns | Blocks | Faults | OutOfFuel.

Definition in_user_code (p : pc) : bool :=
  match p with NotStarted | User | Finished => true | _ => false end.

Fixpoint run (n : nat) (t : tid) (g : gate) (l : local)
  : list event * gate * local * status :=
  if in_user_code (l_pc l) then ([], g, l, Returns)
  else
    match n with
    | O => ([], g, l, OutOfFuel)
    | S n' =>
        match exec t g l with
        | Ok e g' l' =>
            let '(es, g'', l'', st) := run n' t g' l' in (e :: es, g'', l'', st)
        | Blocked => ([], g, l, Blocks)
        | Fault => ([], g, l, Faults)
        end
    end.

(** The calls of the methods, as user code makes them. *)
Definition call (p : pc) (n : nat) (t : tid) (g : gate) (l : local) :=
  run n t g (goto p l).

(** ** What the locks and counters say about the threads *)

(** The operations between which a thread has a lock. *)
Definition holds_at (k : lock_id) (l : local) : bool :=
  match k, l_pc l with
  | L_entry_lock,
    (TcEnter_lock_acquire | TcEnter_lock_release | TcEnter_cond_acquire
    | TcEnter_incr | TcEnter_cond_release | TcEnter_entry_release
    | ClEnter_try | ClEnter_if_unblocked | Wait_cond_acquire | Wait_test
    | Wait_blocked | Wait_reacquire | Wait_cond_release
    | ClEnter_entry_release) => true
  | L_condition,
    (TcEnter_incr | TcEnter_cond_release | TcExit_decr | TcExit_notify
    | TcExit_cond_release | Add_incr | Add_notify_all | Add_cond_release
    | Rem_decr | Rem_notify_all | Rem_cond_release | Wait_test
    | Wait_cond_release) => true
  | L_lock, (TcEnter_lock_release | ClExit_lock_release) => true
  | L_lock,
    (ClEnter_if_unblocked | Wait_cond_acquire | Wait_test | Wait_blocked
    | Wait_reacquire | Wait_cond_release | ClEnter_entry_release
    | ClEnter_if_not_unblocked) => l_unblocked l
  | _, _ => false
  end.

Definition holds (k : lock_id) (l : local) : bool :=
  match k with
  | L_lock => (0 <? l_in_chat_lock l)%nat || holds_at L_lock l
  | _ => holds_at k l
  end.

(** The share of a thread in [_count]. *)
Definition counted (l : local) : Z :=
  match l_pc l with
  | NotStarted | Finished
  | TcEnter_entry_acquire | TcEnter_lock_acquire | TcEnter_lock_release
  | TcEnter_cond_acquire | TcEnter_incr
  | TcExit_notify | TcExit_cond_release => 0
  | TcEnter_cond_release | TcEnter_entry_release
  | TcExit_cond_acquire | TcExit_decr => 1
  | _ => if l_in_threadcount l then 1 else 0
  end.

(** The share of a thread in [_blocking_candidates_count]: an attempt
    between line 50 and line 55, a block not yet left, and every attempt
    that raised. *)
Definition candidate_at (l : local) : Z :=
  match l_pc l with
  | Add_notify_all | Add_cond_release
  | ClEnter_entry_acquire | ClEnter_try | ClEnter_if_unblocked
  | Wait_cond_acquire | Wait_test | Wait_blocked | Wait_reacquire
  | Wait_cond_release | ClEnter_entry_release | ClEnter_if_not_unblocked
  | ClExit_lock_release | Rem_cond_acquire | Rem_decr => 1
  | _ => 0
  end.

Definition candidate (l : local) : Z :=
  candidate_at l + Z.of_nat (l_in_chat_lock l) + Z.of_nat (l_busy_seen l).

Definition total (f : local -> Z) (ths : list local) : Z :=
  foldr (fun l z => f l + z) 0 ths.

(** A thread is in no method and in no [with] block. *)
Definition idle (l : local) : bool :=
  in_user_code (l_pc l) && negb (l_in_threadcount l)
  && (l_in_chat_lock l =? 0)%nat.

(** No exclusive attempt of the thread is outstanding. *)
Definition no_attempt (l : local) : bool :=
  (candidate_at l =? 0) && (l_in_chat_lock l =? 0)%nat.

(** The operations before the user code of a thread runs. *)
Definition before_user_code (p : pc) : bool :=
  match p with
  | NotStarted | TcEnter_entry_acquire | TcEnter_lock_acquire
  | TcEnter_lock_release | TcEnter_cond_acquire | TcEnter_incr
  | TcEnter_cond_release | TcEnter_entry_release => true
  | _ => false
  end.

(** The operations of [wait_until_only_blocking_candidates]. *)
Definition in_wait (p : pc) : bool :=
  match p with
  | Wait_cond_acquire | Wait_test | Wait_blocked | Wait_reacquire
  | Wait_cond_release => true
  | _ => false
  end.

(** A thread never opens two [with chat_lock:] blocks, and opens none
    while a method has [_lock] for it or before its user code runs; it
    is in [wait_until_only_blocking_candidates] only after its
    [acquire(False)] gave [True]. *)
Definition wf (l : local) : Prop :=
  (l_in_chat_lock l <= 1)%nat /\
  (holds_at L_lock l || before_user_code (l_pc l) = true ->
   l_in_chat_lock l = 0%nat) /\
  (in_wait (l_pc l) = true -> l_unblocked l = true).

(** The invariant: a lock is locked by the thread that is between its
    [acquire] and its [release], the queue of the condition holds threads
    that sleep at line 61, each once, and the two counters are the sums of
    the shares of the threads. *)
Record inv (s : state) : Prop := Inv {
  inv_owner_valid : forall k t,
    lock_of k (st_gate s) = Some t -> (t < length (st_threads s))%nat;
  inv_owner : forall k t l,
    st_threads s !! t = Some l ->
    (lock_of k (st_gate s) = Some t <-> holds k l = true);
  inv_local : forall t l, st_threads s !! t = Some l -> wf l;
  inv_waiters : forall t,
    t ∈ g_waiters (st_gate s) ->
    exists l, st_threads s !! t = Some l /\ l_pc l = Wait_blocked;
  inv_waiters_nodup : NoDup (g_waiters (st_gate s));
  inv_count : g_count (st_gate s) = total counted (st_threads s);
  inv_candidates :
    g_blocking_candidates_count (st_gate s) = total candidate (st_threads s)
}.

(** ** The effect of one operation on a lock *)

Definition lock_effect (k : lock_id) (t : tid) (g : gate) (l : local)
    (g' : gate) (l' : local) : Prop :=
  (lock_of k g' = lock_of k g /\ holds k l' = holds k l)
  \/ (lock_of k g = None /\ lock_of k g' = Some t /\ holds k l' = true)
  \/ (lock_of k g = Some t /\ lock_of k g' = None /\ holds k l' = false).

Definition owns_own (t : tid) (g : gate) (l : local) : Prop :=
  forall k, lock_of k g = Some t <-> holds k l = true.

(** ** The history of one call

    What a thread does from a program point until it is back in user code,
    whatever the other threads do meanwhile: each operation is recorded
    with the gate it found and the gate it left. *)
Record op := Op { op_before : gate; op_event : event; op_after : gate }.

Inductive method_run (t : tid) : local -> list op -> local -> Prop :=
  | run_done l : method_run t l [] l
  | run_op l g e g' l1 h l' :
      exec t g l = Ok e g' l1 -> method_run t l1 h l' ->
      method_run t l (Op g e g' :: h) l'.

Definition events (h : list op) : list event := map op_event h.

(** The first operation of each method.  [ChatLock.__enter__] begins
    with the call of [add_blocking_candidate] (line 80). *)
Definition add_blocking_candidate : pc := Add_cond_acquire.
Definition remove_blocking_candidate : pc := Rem_cond_acquire.
Definition wait_until_only_blocking_candidates : pc := Wait_cond_acquire.
Definition wait_until_unblocked : pc := TcEnter_lock_acquire.
Definition ChatThreadcount_enter : pc := TcEnter_entry_acquire.
Definition ChatThreadcount_exit : pc := TcExit_cond_acquire.
Definition ChatLock_enter : pc := add_blocking_candidate.
Definition ChatLock_exit : pc := ClExit_lock_release.

(** The operations of [ChatLock.__enter__] during which the thread has
    [_entry_lock]: lines 88 to 98. *)
Definition in_attempt (p : pc) : bool :=
  match p with
  | ClEnter_try | ClEnter_if_unblocked | Wait_cond_acquire | Wait_test
  | Wait_blocked | Wait_reacquire | Wait_cond_release
  | ClEnter_entry_release => true
  | _ => false
  end.

(** The operations of [ChatThreadcount.__enter__] during which the thread
    has [_entry_lock]: lines 30 to 34. *)
Definition in_admission (p : pc) : bool :=
  match p with
  | TcEnter_lock_acquire | TcEnter_lock_release | TcEnter_cond_acquire
  | TcEnter_incr | TcEnter_cond_release | TcEnter_entry_release => true
  | _ => false
  end.

(** Schedules for examples. *)
Definition execs (t : tid) (n : nat) : list (tid * move) := replicate n (t, M_exec).

Definition after (sch : list (tid * move)) (s : state) : state :=
  match run_schedule sch s with Some s' => s' | None => s end.

(** ** Proof automation *)

Ltac break_local l :=
  let p := fresh "p" in
  destruct l as [p ? ? ? ? ?]; destruct p.

Ltac unfold_ops :=
  unfold do_acquire, do_release, do_update, do_notify, goto, set_unblocked,
    set_in_threadcount, set_in_chat_lock, set_target_raised, set_busy_seen,
    set_lock, set_count, set_blocking_candidates_count, set_waiters in *.

Ltac run_exec He :=
  cbn in *; unfold_ops; cbn in *;
  repeat (case_match; cbn in * ); try discriminate; simplify_eq.

(** The operations of the loop of lines 60 and 61 before it ends. *)
Definition is_wait_event (e : event) : bool :=
  match e with
  | EvAcquire L_condition | EvWait | EvWoken => true
  | _ => false
  end.

(** What the operations of a call add to a counter. *)
Definition delta (f : gate -> Z) (h : list op) : Z :=
  foldr (fun o z => f (op_after o) - f (op_before o) + z) 0 h.

(** The operations of [ChatLock.__enter__] after a successful
    [acquire(False)] and before the loop of line 60 has ended. *)
Definition before_drain (p : pc) : bool :=
  match p with
  | ClEnter_if_unblocked | Wait_cond_acquire | Wait_test | Wait_blocked
  | Wait_reacquire => true
  | _ => false
  end.

Definition is_before_drain_event (e : event) : bool :=
  match e with
  | EvIf true => true
  | _ => is_wait_event e
  end.

#[local] Arguments Z.ltb : simpl never.

(** The operations on [_lock] that take or try to take it. *)
Definition takes_lock (e : event) : bool :=
  match e with
  | EvTryAcquire L_lock _ | EvAcquire L_lock => true
  | _ => false
  end.

(** Evaluation of [run] for a thread [t] that is a variable. *)
Ltac solo_run :=
  repeat (progress (cbn -[decide Z.add Z.sub];
                    unfold do_notify, do_release, do_acquire, do_update;
                    cbn -[decide Z.add Z.sub];
                    rewrite ?decide_True by reflexivity)).

(** The history of a thread that runs alone from gate [g]. *)
Fixpoint history (n : nat) (t : tid) (g : gate) (l : local) : list op * local :=
  if in_user_code (l_pc l) then ([], l)
  else
    match n with
    | O => ([], l)
    | S n' =>
        match exec t g l with
        | Ok e g' l' =>
            let '(h, lf) := history n' t g' l' in (Op g e g' :: h, lf)
        | _ => ([], l)
        end
    end.

(** ** Example schedules *)

(** Three threads of [Plugin._start]: all are admitted, then all leave. *)
Definition three_workers : list (tid * move) :=
  [(0, M_user A_thread_start); (1, M_user A_thread_start)]%nat
  ++ execs 0 7 ++ execs 1 7
  ++ [(2, M_user A_thread_start)]%nat ++ execs 2 7
  ++ [(1, M_user (A_ends true))]%nat ++ execs 1 4
  ++ [(0, M_user (A_ends false)); (2, M_user (A_ends false))]%nat
  ++ execs 2 4 ++ execs 0 4.

(** Thread 0 is admitted and stays; thread 1 is admitted and reaches the
    wait of line 61, where it stays while thread 0 has not left. *)
Definition drain_schedule : list (tid * move) :=
  [(0, M_user A_thread_start); (1, M_user A_thread_start)]%nat
  ++ execs 0 7 ++ execs 1 7
  ++ [(1, M_user A_with_chat_lock)]%nat ++ execs 1 9.

(** Thread 0 is in a [with chat_lock:] block when thread 1 tries to
    enter one; both are threads of [Plugin._start]. *)
Definition contended_schedule : list (tid * move) :=
  [(0, M_user A_thread_start); (1, M_user A_thread_start)]%nat
  ++ execs 0 7 ++ execs 1 7
  ++ [(0, M_user A_with_chat_lock); (1, M_user A_with_chat_lock)]%nat
  ++ execs 1 4 ++ execs 0 12.

(** After [contended_schedule]: thread 1 gets the exception, thread 0
    leaves its block, and both targets end. *)
Definition busy_schedule : list (tid * move) :=
  contended_schedule
  ++ execs 1 5
  ++ [(0, M_user A_leave_chat_lock)]%nat ++ execs 0 5
  ++ [(1, M_user (A_ends true))]%nat ++ execs 1 4
  ++ [(0, M_user (A_ends false))]%nat ++ execs 0 4.


(** After [busy_schedule], threads 2 and 3 of [Plugin._start] are
    admitted and thread 2 enters [with chat_lock:]. *)
Definition leak_schedule : list (tid * move) :=
  busy_schedule
  ++ [(2, M_user A_thread_start); (3, M_user A_thread_start)]%nat
  ++ execs 2 7 ++ execs 3 7
  ++ [(2, M_user A_with_chat_lock)]%nat ++ execs 2 12.



(** After [drain_schedule], the target of thread 0 ends and thread 0 runs
    [__exit__] up to the call of line 46; thread 1 is still inside
    [wait()]. *)
Definition exit_schedule : list (tid * move) :=
  drain_schedule ++ [(0, M_user (A_ends false))]%nat ++ execs 0 2.
(** * The rest of [plugin.py]: [Plugin._start] *)

(** The operations of [ChatThreadcount.__enter__] after
    [wait_until_unblocked] has returned: lines 33 and 34. *)
Definition after_unblocked (p : pc) : bool :=
  match p with
  | TcEnter_cond_acquire | TcEnter_incr | TcEnter_cond_release
  | TcEnter_entry_release => true
  | _ => false
  end.

(** A thread that has changed a counter and has not yet called
    [notify()] or [notify_all()]: lines 46 and 51. *)
Definition about_to_notify (p : pc) : bool :=
  match p with
  | TcExit_notify | Add_notify_all => true
  | _ => false
  end.

(** A [Plugin]: [chat_lock] is [None] until the first [_start]; the
    threads are those that [_start] has made. *)
Definition Plugin : Type := option state.

(** [Plugin.__init__] *)
Definition Plugin_init : Plugin := None.

(** The thread that [Thread(target=self._thread_start)] makes, once
    started: it is about to enter line 127. *)
Definition started_thread : local := goto ChatThreadcount_enter local_init.

(** [Plugin._start], lines 142 to 151: the chat lock is made if there is
    none, and a thread that runs [_thread_start] is made and started.  The
    result is the plugin and the new thread. *)
Definition Plugin_start (p : Plugin) : Plugin * tid :=
  match p with
  | None => (Some (State ChatLock_init [started_thread]), 0%nat)
  | Some s =>
      (Some (State (st_gate s) (st_threads s ++ [started_thread])),
       length (st_threads s))
  end.

(** A plugin changes by [_start] and by the operations of its threads. *)
Inductive plugin_reachable : Plugin -> Prop :=
  | plugin_new : plugin_reachable Plugin_init
  | plugin_start p : plugin_reachable p -> plugin_reachable (fst (Plugin_start p))
  | plugin_step s s' :
      plugin_reachable (Some s) -> step s s' -> plugin_reachable (Some s').

(** * [signalbot.py]: chats, messages and the commands of the master

    Texts are [string]s of UTF-8 bytes; the code compares them, joins
    them, tests the prefix ["//"], cuts those two characters off and splits
    at spaces, which is the same on bytes and on characters.  What the
    code calls on objects that are not in this file is recorded in a log:
    the calls of the signal service, the writes of the configuration file
    and the calls of the plugin routers. *)

(** ** Python dictionaries, which keep the order of insertion *)
Section Dict.
Context {K V : Type} `{EqDecision K}.

(** [d.get(k)] *)
Fixpoint dict_get (k : K) (d : list (K * V)) : option V :=
  match d with
  | [] => None
  | (k', v) :: d' => if decide (k = k') then Some v else dict_get k d'
  end.

(** [k in d] *)
Definition dict_in (k : K) (d : list (K * V)) : bool :=
  match dict_get k d with Some _ => true | None => false end.

(** [d[k] = v]: a key that is there keeps its place. *)
Fixpoint dict_set (k : K) (v : V) (d : list (K * V)) : list (K * V) :=
  match d with
  | [] => [(k, v)]
  | (k', v') :: d' =>
      if decide (k = k') then (k, v) :: d' else (k', v') :: dict_set k v d'
  end.

(** [del d[k]], for a key that is there. *)
Fixpoint dict_del (k : K) (d : list (K * V)) : list (K * V) :=
  match d with
  | [] => []
  | (k', v') :: d' =>
      if decide (k = k') then d' else (k', v') :: dict_del k d'
  end.

Definition dict_keys (d : list (K * V)) : list K := map fst d.
End Dict.

(** [Signalbot.__init__], lines 91 and 92:
    [for key, default in defaults.items():
       self._config[key] = self._config.get(key, default)] *)
Definition fill_defaults {K V : Type} `{EqDecision K}
    (defaults config : list (K * V)) : list (K * V) :=
  foldl (fun cfg kd =>
           dict_set (fst kd)
             (match dict_get (fst kd) cfg with Some v => v | None => snd kd end)
             cfg)
        config defaults.

(** ** Lists and texts *)

(** [x in l] *)
Definition list_in {A : Type} `{EqDecision A} (x : A) (l : list A) : bool :=
  bool_decide (x ∈ l).

(** [l.remove(x)], for an [x] that is there: the first one goes. *)
Fixpoint list_remove {A : Type} `{EqDecision A} (x : A) (l : list A) : list A :=
  match l with
  | [] => []
  | y :: l' => if decide (x = y) then l' else y :: list_remove x l'
  end.

(** [s[n:]] *)
Fixpoint str_drop (n : nat) (s : string) : string :=
  match n, s with
  | O, _ => s
  | S n', String _ s' => str_drop n' s'
  | S _, EmptyString => EmptyString
  end.

Definition space : Ascii.ascii := Ascii.ascii_of_nat 32.

(** [s.split(' ')]: the pieces between the spaces, empty ones included;
    never the empty list. *)
Fixpoint split_space (s : string) : list string :=
  match s with
  | EmptyString => [EmptyString]
  | String c s' =>
      if Ascii.eqb c space then EmptyString :: split_space s'
      else
        match split_space s' with
        | [] => [String c EmptyString]
        | p :: ps => String c p :: ps
        end
  end.

Definition newline : string := String (Ascii.ascii_of_nat 10) EmptyString.

(** [' ❌'] and [' ✔']: a space and the UTF-8 bytes of U+274C, U+2714. *)
Definition cross_mark : string :=
  String space (String (Ascii.ascii_of_nat 226) (String (Ascii.ascii_of_nat 157)
    (String (Ascii.ascii_of_nat 140) EmptyString))).
Definition check_mark : string :=
  String space (String (Ascii.ascii_of_nat 226) (String (Ascii.ascii_of_nat 156)
    (String (Ascii.ascii_of_nat 148) EmptyString))).

(** ** Chats *)

(** The id of a chat: the sender, a text, or the tuple of the group id. *)
Inductive chat_id :=
  | IdSender (sender : string)
  | IdGroup (group_id : list Z).

Global Instance chat_id_eq_dec : EqDecision chat_id.
Proof. solve_decision. Defined.

(** [Chat.get_chat_id_from_sender_and_group_id], lines 25 to 30 *)
Definition get_chat_id_from_sender_and_group_id
    (sender : string) (group_id : list Z) : chat_id :=
  match group_id with
  | [] => IdSender sender
  | _ :: _ => IdGroup group_id
  end.

(** Line 19: [isinstance(id, tuple) and id != ()].  [is_group] is set in
    [Chat.__init__] and never changed, so it is a function of the id. *)
Definition is_group (i : chat_id) : bool :=
  match i with
  | IdGroup (_ :: _) => true
  | _ => false
  end.

Section Bot.
(** The plugin routers are objects of a class that is not in this file. *)
Context {router : Type}.

Record Chat := mkChat {
  c_id : chat_id;
  c_plugin_routers : list (string * router)  (* Chat._plugin_routers *)
}.

(** [Chat.__init__] *)
Definition Chat_new (i : chat_id) : Chat := mkChat i [].

(** A message; [m_chat] is the address of its [Chat] object. *)
Record Message := mkMessage {
  m_timestamp : Z;
  m_chat : nat;
  m_sender : string;
  m_text : string;
  m_attachmentfiles : list string
}.

(** [self._config] with its five keys (lines 84 to 92). *)
Record Config := mkConfig {
  cfg_bus : option string;
  cfg_enabled : list (chat_id * list string);
  cfg_master : option string;
  cfg_plugins : list string;
  cfg_testing_plugins : list string
}.

Inductive effect :=
  | SendMessage (text : string) (attachments : list string)
      (recipients : list chat_id)          (* self._signal.sendMessage *)
  | SendGroupMessage (text : string) (attachments : list string)
      (group_id : list Z)                  (* self._signal.sendGroupMessage *)
  | SaveConfig (c : Config)                (* yaml.dump(self._config, ...) *)
  | RouterEnable (r : router) (chat : nat)     (* router.enable(chat) *)
  | RouterDisable (r : router) (chat : nat)    (* router.disable(chat) *)
  | RouterTriage (r : router) (m : Message).   (* router.triagemessage(message) *)

(** The bot: its configuration, its routers, its chats, the [Chat] objects
    there are (an object is known by its address, its place in [b_heap])
    and the log. *)
Record Signalbot := mkBot {
  b_config : Config;
  b_plugin_routers : list (string * router);   (* self._plugin_routers *)
  b_chats : list (chat_id * nat);              (* self._chats *)
  b_heap : list Chat;
  b_out : list effect
}.

Inductive exn :=
  | KeyError
  | IndexError
  | CwdChanged       (* line 223 *)
  | NoObject.        (* an address without object; Python has none *)

Inductive result (A : Type) :=
  | Ret (a : A) (b : Signalbot)
  | Raise (e : exn) (b : Signalbot).
Arguments Ret {A} a b.
Arguments Raise {A} e b.

Definition M (A : Type) : Type := Signalbot -> result A.

Definition ret {A : Type} (a : A) : M A := fun b => Ret a b.

Definition bind {A B : Type} (m : M A) (k : A -> M B) : M B :=
  fun b => match m b with
           | Ret a b' => k a b'
           | Raise e b' => Raise e b'
           end.

Definition raise {A : Type} (e : exn) : M A := fun b => Raise e b.

Definition get : M Signalbot := fun b => Ret b b.

Definition put (b : Signalbot) : M unit := fun _ => Ret tt b.

Definition emit (e : effect) : M unit :=
  fun b => Ret tt (mkBot (b_config b) (b_plugin_routers b) (b_chats b) (b_heap b)
                     (b_out b ++ [e])).

Definition set_config (c : Config) : M unit :=
  fun b => Ret tt (mkBot c (b_plugin_routers b) (b_chats b) (b_heap b) (b_out b)).

Definition set_enabled (e : list (chat_id * list string)) : M unit :=
  fun b => Ret tt (mkBot (mkConfig (cfg_bus (b_config b)) e (cfg_master (b_config b))
                            (cfg_plugins (b_config b))
                            (cfg_testing_plugins (b_config b)))
                     (b_plugin_routers b) (b_chats b) (b_heap b) (b_out b)).

Definition set_plugin_routers (r : list (string * router)) : M unit :=
  fun b => Ret tt (mkBot (b_config b) r (b_chats b) (b_heap b) (b_out b)).

Definition set_chats (c : list (chat_id * nat)) : M unit :=
  fun b => Ret tt (mkBot (b_config b) (b_plugin_routers b) c (b_heap b) (b_out b)).

Definition set_heap (h : list Chat) : M unit :=
  fun b => Ret tt (mkBot (b_config b) (b_plugin_routers b) (b_chats b) h (b_out b)).

Notation "x <- m ;; k" := (bind m (fun x => k))
  (at level 100, m at next level, right associativity).
Notation "m ;;; k" := (bind m (fun _ => k))
  (at level 100, right associativity).

(** [for x in l: body] *)
Fixpoint for_each {A : Type} (l : list A) (body : A -> M unit) : M unit :=
  match l with
  | [] => ret tt
  | x :: l' => body x ;;; for_each l' body
  end.

(** The object at an address, and a change of its [_plugin_routers]. *)
Definition deref (a : nat) : M Chat :=
  b <- get ;;
  match b_heap b !! a with
  | Some c => ret c
  | None => raise NoObject
  end.

Definition set_chat_plugin_routers (a : nat) (r : list (string * router)) : M unit :=
  c <- deref a ;;
  b <- get ;;
  set_heap (<[a := mkChat (c_id c) r]> (b_heap b)).

(** [Chat(self, id)]: a new object. *)
Definition new_Chat (i : chat_id) : M nat :=
  b <- get ;;
  set_heap (b_heap b ++ [Chat_new i]) ;;;
  ret (length (b_heap b)).

(** ** [Signalbot]: sending *)

(** [Signalbot.send_message], lines 189 to 193 *)
Definition send_message (text : string) (attachments : list string) (chat : nat)
  : M unit :=
  c <- deref chat ;;
  match c_id c with
  | IdGroup (x :: g) => emit (SendGroupMessage text attachments (x :: g))
  | i => emit (SendMessage text attachments [i])
  end.

(** [Signalbot.send_error], [Signalbot.send_success] *)
Definition send_error (text : string) (attachments : list string) (chat : nat)
  : M unit :=
  send_message (text +:+ cross_mark) attachments chat.

Definition send_success (text : string) (attachments : list string) (chat : nat)
  : M unit :=
  send_message (text +:+ check_mark) attachments chat.

(** ** [Chat] *)

(** [Chat.enable_plugin], lines 35 to 38 *)
Definition enable_plugin (chat : nat) (plugin : string) (plugin_router : router)
  : M unit :=
  c <- deref chat ;;
  if dict_in plugin (c_plugin_routers c) then ret tt
  else
    set_chat_plugin_routers chat (dict_set plugin plugin_router (c_plugin_routers c)) ;;;
    emit (RouterEnable plugin_router chat).

(** [Chat.disable_plugin], lines 40 to 43 *)
Definition disable_plugin (chat : nat) (plugin : string) : M unit :=
  c <- deref chat ;;
  match dict_get plugin (c_plugin_routers c) with
  | None => ret tt
  | Some r =>
      emit (RouterDisable r chat) ;;;
      set_chat_plugin_routers chat (dict_del plugin (c_plugin_routers c))
  end.

(** [Chat.triagemessage], lines 45 to 47 *)
Definition Chat_triagemessage (chat : nat) (message : Message) : M unit :=
  c <- deref chat ;;
  for_each (c_plugin_routers c) (fun kr => emit (RouterTriage (snd kr) message)).

(** [Chat.reply], [Chat.error], [Chat.success]; [attachments] is [[]]
    wherever the bot calls them. *)
Definition reply (chat : nat) (text : string) : M unit := send_message text [] chat.
Definition error (chat : nat) (text : string) : M unit := send_error text [] chat.
Definition success (chat : nat) (text : string) : M unit := send_success text [] chat.

(** ** [Signalbot]: configuration, chats and plugins *)

(** [Signalbot._save_config] *)
Definition save_config : M unit :=
  b <- get ;; emit (SaveConfig (b_config b)).

(** [Signalbot._get_chat_by_id], lines 97 to 100 *)
Definition get_chat_by_id (i : chat_id) : M nat :=
  b <- get ;;
  (if dict_in i (b_chats b) then ret tt
   else a <- new_Chat i ;; b' <- get ;; set_chats (dict_set i a (b_chats b'))) ;;;
  b' <- get ;;
  match dict_get i (b_chats b') with
  | Some a => ret a
  | None => raise KeyError
  end.

(** [Signalbot._init_plugin], lines 119 to 125, for the router that lines
    102 to 118 have made. *)
Definition init_plugin (plugin : string) (plugin_router : router) : M unit :=
  b <- get ;;
  set_plugin_routers (dict_set plugin plugin_router (b_plugin_routers b)) ;;;
  for_each (dict_keys (cfg_enabled (b_config b))) (fun i =>
    b' <- get ;;
    match dict_get i (cfg_enabled (b_config b')) with
    | None => raise KeyError
    | Some ps =>
        if list_in plugin ps
        then chat <- get_chat_by_id i ;; enable_plugin chat plugin plugin_router
        else ret tt
    end).

(** [Signalbot.__enter__], lines 152 to 157; [new_router plugin test] is
    the router that [_init_plugin(plugin, test)] makes. *)
Definition load_plugins (new_router : string -> bool -> router) : M unit :=
  set_plugin_routers [] ;;;
  set_chats [] ;;;
  b <- get ;;
  for_each (cfg_plugins (b_config b))
    (fun plugin => init_plugin plugin (new_router plugin false)) ;;;
  for_each (cfg_testing_plugins (b_config b))
    (fun plugin => init_plugin plugin (new_router plugin true)).

(** ** The commands of the master *)

Definition help_text : string :=
  let indent := "            " in
  newline +:+ indent +:+ "Available commands:" +:+ newline
  +:+ indent +:+ "//help" +:+ newline
  +:+ indent +:+ "//enable plugin [plugin ...]" +:+ newline
  +:+ indent +:+ "//disable plugin  [plugin ...]" +:+ newline
  +:+ indent +:+ "//list-enabled" +:+ newline
  +:+ indent +:+ "//list-available" +:+ newline
  +:+ indent.

(** [Signalbot._master_print_help] *)
Definition master_print_help (message : Message) : M unit :=
  reply (m_chat message) help_text.

(** [Signalbot._master_enable], lines 236 to 259 *)
Definition master_enable (message : Message) (params : list string) : M unit :=
  for_each params (fun plugin =>
    b <- get ;;
    if negb (list_in plugin (cfg_plugins (b_config b)
                             ++ cfg_testing_plugins (b_config b)))
    then error (m_chat message) ("Plugin " +:+ plugin +:+ " not loaded")
    else
      c <- deref (m_chat message) ;;
      let i := c_id c in
      (if dict_in i (cfg_enabled (b_config b)) then ret tt
       else set_enabled (dict_set i [] (cfg_enabled (b_config b)))) ;;;
      b1 <- get ;;
      match dict_get i (cfg_enabled (b_config b1)) with
      | None => raise KeyError
      | Some ps =>
          if list_in plugin ps
          then reply (m_chat message)
                 ("Plugin " +:+ plugin +:+ " is already enabled.")
          else
            set_enabled (dict_set i (ps ++ [plugin]) (cfg_enabled (b_config b1))) ;;;
            save_config ;;;
            chat <- get_chat_by_id i ;;
            b2 <- get ;;
            match dict_get plugin (b_plugin_routers b2) with
            | None => raise KeyError
            | Some r =>
                enable_plugin chat plugin r ;;;
                success (m_chat message) ("Plugin " +:+ plugin +:+ " enabled.")
            end
      end).

(** [Signalbot._master_disable], lines 261 to 277 *)
Definition master_disable (message : Message) (params : list string) : M unit :=
  for_each params (fun plugin =>
    c <- deref (m_chat message) ;;
    let i := c_id c in
    b <- get ;;
    match dict_get i (cfg_enabled (b_config b)) with
    | None =>
        reply (m_chat message) ("Plugin " +:+ plugin +:+ " is already disabled.")
    | Some ps =>
        if negb (list_in plugin ps)
        then reply (m_chat message)
               ("Plugin " +:+ plugin +:+ " is already disabled.")
        else
          disable_plugin (m_chat message) plugin ;;;
          b1 <- get ;;
          set_enabled (dict_set i (list_remove plugin ps) (cfg_enabled (b_config b1))) ;;;
          (match list_remove plugin ps with
           | [] =>
               b2 <- get ;;
               set_enabled (dict_del i (cfg_enabled (b_config b2))) ;;;
               b3 <- get ;;
               if dict_in i (b_chats b3)
               then set_chats (dict_del i (b_chats b3))
               else raise KeyError
           | _ :: _ => ret tt
           end) ;;;
          save_config ;;;
          success (m_chat message) ("Plugin " +:+ plugin +:+ " disabled.")
    end).

(** [Signalbot._master_list_enabled], lines 279 to 285 *)
Definition master_list_enabled (message : Message) : M unit :=
  c <- deref (m_chat message) ;;
  b <- get ;;
  let body :=
    match dict_get (c_id c) (cfg_enabled (b_config b)) with
    | Some ps => foldl (fun r plugin => r +:+ plugin +:+ newline) "" ps
    | None => ""
    end in
  reply (m_chat message) ("Enabled plugins:" +:+ newline +:+ body).

(** [Signalbot._master_list_available], lines 287 to 291 *)
Definition master_list_available (message : Message) : M unit :=
  b <- get ;;
  reply (m_chat message)
    ("Available plugins:" +:+ newline
     +:+ foldl (fun r plugin => r +:+ plugin +:+ newline) ""
           (dict_keys (b_plugin_routers b))).

(** [Signalbot._master_message], lines 293 to 312 *)
Definition master_message (message : Message) : M unit :=
  b <- get ;;
  if negb (bool_decide (cfg_master (b_config b) = Some (m_sender message)))
  then error (m_chat message) "You are not my master."
  else
    match split_space (str_drop 2 (m_text message)) with
    | [] => raise IndexError
    | command :: params =>
        if bool_decide (command = "help") then master_print_help message
        else if bool_decide (command = "enable") then master_enable message params
        else if bool_decide (command = "disable") then master_disable message params
        else if bool_decide (command = "list-enabled")
             then master_list_enabled message
        else if bool_decide (command = "list-available")
             then master_list_available message
        else error (m_chat message) "Invalid command."
    end.

(** [Signalbot._triagemessage], lines 201 to 224; [in_fakecwd] is the
    outcome of the test of line 222. *)
Definition triagemessage (timestamp : Z) (sender : string) (group_id : list Z)
    (text : string) (attachmentfiles : list string) (in_fakecwd : bool) : M unit :=
  let i := get_chat_id_from_sender_and_group_id sender group_id in
  b <- get ;;
  chat <- match dict_get i (b_chats b) with
          | Some a => ret a
          | None => new_Chat i
          end ;;
  let message := mkMessage timestamp chat sender text attachmentfiles in
  if String.prefix "//" (m_text message) then master_message message
  else
    Chat_triagemessage chat message ;;;
    if in_fakecwd then ret tt else raise CwdChanged.

End Bot.

Arguments Chat router : clear implicits.
Arguments Message : clear implicits.
Arguments effect router : clear implicits.
Arguments Signalbot router : clear implicits.
Arguments result router A : clear implicits.
Arguments M router A : clear implicits.
Arguments Ret {router A} a b.
Arguments Raise {router A} e b.

(** ** What the theorems on [signalbot.py] speak about *)

(** The call of the signal service that answers a message of [sender] in
    the group [group_id]. *)
Definition sent_to {router : Type} (sender : string) (group_id : list Z)
    (text : string) (attachments : list string) : effect router :=
  match group_id with
  | [] => SendMessage text attachments [IdSender sender]
  | _ :: _ => SendGroupMessage text attachments group_id
  end.

(** The bot with one more object, with more in its log. *)
Definition with_object {router : Type} (c : Chat router) (b : Signalbot router)
  : Signalbot router :=
  mkBot (b_config b) (b_plugin_routers b) (b_chats b) (b_heap b ++ [c]) (b_out b).

Definition with_log {router : Type} (es : list (effect router))
    (b : Signalbot router) : Signalbot router :=
  mkBot (b_config b) (b_plugin_routers b) (b_chats b) (b_heap b) (b_out b ++ es).

(** Every chat of [_chats] is an object with the id it is stored under. *)
Definition chats_valid {router : Type} (b : Signalbot router) : Prop :=
  forall i a, dict_get i (b_chats b) = Some a ->
    exists c, b_heap b !! a = Some c /\ c_id c = i.

(** The lines of [_master_list_enabled] and [_master_list_available]. *)
Definition plugin_lines (ps : list string) : string :=
  foldr (fun plugin r => plugin +:+ newline +:+ r) "" ps.

(** The commands of [_master_message]. *)
Definition commands : list string :=
  ["help"; "enable"; "disable"; "list-enabled"; "list-available"].

(** The chat of an arriving message (lines 205 to 209): the stored one,
    or a new object that is not stored. *)
Definition arrival {router : Type} (b : Signalbot router) (i : chat_id)
  : nat * Signalbot router :=
  match dict_get i (b_chats b) with
  | Some a => (a, b)
  | None => (length (b_heap b), with_object (Chat_new i) b)
  end.

(** ** An example bot

    The router of a plugin stands for itself: the name of the plugin and
    whether it is a testing plugin.  The configuration file enables
    [echo] in the chat of ["+100"] and [echo] and [dice] in a group; the
    master is ["+999"]. *)
Definition example_config : Config :=
  mkConfig None
    [(IdSender "+100", ["echo"]); (IdGroup [1; 2; 3], ["echo"; "dice"])]
    (Some "+999") ["echo"; "dice"] ["probe"].

Definition state_of {router A : Type} (r : result router A) : Signalbot router :=
  match r with Ret _ b => b | Raise _ b => b end.

Definition example_bot : Signalbot (string * bool) :=
  state_of (load_plugins (fun plugin test => (plugin, test))
              (mkBot example_config [] [] [] [])).
(** * Proofs *)

(** ** Sums over the threads *)

Lemma total_insert (f : local -> Z) (ths : list local) (t : nat) (l l' : local) :
  ths !! t = Some l ->
  total f (<[t := l']> ths) = total f ths - f l + f l'.
Proof.
  revert t. induction ths as [|x ths IH]; intros [|t] H; simpl in *; try discriminate.
  - injection H as ->. lia.
  - rewrite (IH t H). lia.
Qed.

Lemma total_replicate (f : local -> Z) (n : nat) (l : local) :
  f l = 0 -> total f (replicate n l) = 0.
Proof. intros H. induction n as [|n IH]; simpl; [reflexivity | lia]. Qed.

Lemma total_nonneg (f : local -> Z) (ths : list local) :
  (forall l, 0 <= f l) -> 0 <= total f ths.
Proof.
  intros H. induction ths as [|x ths IH]; simpl; [lia | specialize (H x); lia].
Qed.

Lemma total_zero (f : local -> Z) (ths : list local) :
  (forall t l, ths !! t = Some l -> f l = 0) -> total f ths = 0.
Proof.
  induction ths as [|x ths IH]; intros H; simpl; [reflexivity|].
  rewrite (H 0%nat x eq_refl), IH; [reflexivity|].
  intros t l Hl. exact (H (S t) l Hl).
Qed.

Lemma owns_own_facts t g l :
  owns_own t g l ->
  (g_lock g = Some t <-> holds L_lock l = true) /\
  (g_entry_lock g = Some t <-> holds L_entry_lock l = true) /\
  (g_condition g = Some t <-> holds L_condition l = true).
Proof. intros H. exact (conj (H L_lock) (conj (H L_entry_lock) (H L_condition))). Qed.

Lemma exec_lock_effect t g l e g' l' k :
  owns_own t g l -> wf l -> exec t g l = Ok e g' l' ->
  lock_effect k t g l g' l'.
Proof.
  intros Ho (Hle & Hat & Hwt) He. apply owns_own_facts in Ho. destruct Ho as (HL & HE & HC).
  destruct g as [c b lk el cd w].
  break_local l; run_exec He.
  all: unfold lock_effect, holds; destruct k; cbn.
  all: try (left; split; reflexivity).
  all: try (right; left; repeat split; try reflexivity; cbn;
            rewrite ?orb_true_r; reflexivity).
  all: cbn in *; intuition (try congruence; try lia).
Qed.

Lemma exec_wf t g l e g' l' :
  owns_own t g l -> wf l -> exec t g l = Ok e g' l' -> wf l'.
Proof.
  intros Ho (Hle & Hat & Hwt) He. apply owns_own_facts in Ho. destruct Ho as (HL & HE & HC).
  destruct g as [c b lk el cd w].
  break_local l; run_exec He.
  all: unfold wf, holds in *; cbn in *.
  all: intuition (try congruence; try lia).
Qed.

Lemma exec_count t g l e g' l' :
  exec t g l = Ok e g' l' ->
  g_count g' - counted l' = g_count g - counted l.
Proof.
  intros He. destruct g as [c b lk el cd w].
  break_local l; run_exec He; unfold counted; cbn; lia.
Qed.

Lemma exec_candidate t g l e g' l' :
  exec t g l = Ok e g' l' ->
  g_blocking_candidates_count g' - candidate l'
  = g_blocking_candidates_count g - candidate l.
Proof.
  intros He. destruct g as [c b lk el cd w].
  break_local l; run_exec He; unfold candidate; cbn; lia.
Qed.

(** The waiters change at [wait()], [notify()] and [notify_all()] only,
    and a thread leaves [wait()] only when it is no longer queued. *)
Lemma exec_waiters t g l e g' l' :
  exec t g l = Ok e g' l' ->
  (l_pc l = Wait_blocked -> t ∉ g_waiters g) /\
  ((g_waiters g' = g_waiters g /\
    (l_pc l' = Wait_blocked -> l_pc l = Wait_blocked))
   \/ (g_waiters g' = g_waiters g ++ [t] /\ l_pc l = Wait_test
       /\ l_pc l' = Wait_blocked)
   \/ (g_waiters g' = tail (g_waiters g) /\ l_pc l' <> Wait_blocked
       /\ l_pc l <> Wait_blocked)
   \/ (g_waiters g' = [] /\ l_pc l' <> Wait_blocked)).
Proof.
  intros He. destruct g as [c b lk el cd w].
  break_local l; run_exec He; unfold notify, notify_all.
  all: split; [try discriminate; auto|].
  all: first [ left; split; [reflexivity | cbn; congruence]
             | right; left; split; [|split]; reflexivity
             | right; right; left; split; [|split];
               [reflexivity | cbn; congruence ..]
             | right; right; right; split; [reflexivity | cbn; congruence] ].
Qed.

Lemma user_step_holds a l l' k :
  wf l -> user_step a l = Some l' -> holds k l' = holds k l.
Proof.
  intros (Hle & Hat & Hwt) Hu. destruct a; break_local l; cbn in *;
    repeat (case_match; cbn in * ); simplify_eq.
  all: destruct k; unfold holds; cbn; rewrite ?orb_true_r; reflexivity.
Qed.

Lemma user_step_wf a l l' : wf l -> user_step a l = Some l' -> wf l'.
Proof.
  intros (Hle & Hat & Hwt) Hu. destruct a; break_local l; cbn in *;
    repeat (case_match; cbn in * ); simplify_eq.
  all: unfold wf; cbn in *; intuition (try congruence; try lia).
Qed.

Lemma user_step_count a l l' :
  user_step a l = Some l' -> counted l' = counted l /\ candidate l' = candidate l.
Proof.
  intros Hu. destruct a; break_local l; cbn in *;
    repeat (case_match; cbn in * ); simplify_eq.
  all: unfold counted, candidate; cbn; split; try reflexivity; try lia.
Qed.

Lemma user_step_pc a l l' :
  user_step a l = Some l' ->
  in_user_code (l_pc l) = true /\ l_pc l' <> Wait_blocked.
Proof.
  intros Hu. destruct a; break_local l; cbn in *;
    repeat (case_match; cbn in * ); simplify_eq; split; cbn; congruence.
Qed.

(** ** The invariant *)

Lemma inv_owns_own s t l :
  inv s -> st_threads s !! t = Some l -> owns_own t (st_gate s) l.
Proof. intros Hi Hl k. exact (inv_owner s Hi k t l Hl). Qed.

Lemma inv_init n : inv (init n).
Proof.
  split; cbn.
  - intros [] t H; discriminate.
  - intros k t l Hl. apply lookup_replicate in Hl as [-> _].
    destruct k; cbn; split; discriminate.
  - intros t l Hl. apply lookup_replicate in Hl as [-> _].
    repeat split; cbn; [lia | discriminate].
  - intros t H. inversion H.
  - constructor.
  - symmetry. apply total_replicate. reflexivity.
  - symmetry. apply total_replicate. reflexivity.
Qed.

(** A thread changes its own record and the gate; the locks follow
    [lock_effect]. *)
Lemma owner_preserved s t l g' l' :
  inv s -> st_threads s !! t = Some l ->
  (forall k, lock_effect k t (st_gate s) l g' l') ->
  (forall k u, lock_of k g' = Some u ->
     (u < length (<[t := l']> (st_threads s)))%nat) /\
  (forall k u lu, <[t := l']> (st_threads s) !! u = Some lu ->
     (lock_of k g' = Some u <-> holds k lu = true)).
Proof.
  intros Hi Hl Heff.
  assert (Ht : (t < length (st_threads s))%nat) by (eapply lookup_lt_Some; eauto).
  split.
  - intros k u Hu. rewrite length_insert.
    destruct (Heff k) as [[Hg _] | [(_ & Hg & _) | (_ & Hg & _)]].
    + rewrite Hg in Hu. eapply inv_owner_valid; eauto.
    + rewrite Hg in Hu. injection Hu as <-. exact Ht.
    + rewrite Hg in Hu. discriminate.
  - intros k u lu Hlu. destruct (decide (u = t)) as [->|Hne].
    + rewrite list_lookup_insert_eq in Hlu by exact Ht. injection Hlu as <-.
      pose proof (inv_owner s Hi k t l Hl) as Ho.
      destruct (Heff k) as [[Hg Hh] | [(Hn & Hg & Hh) | (Hn & Hg & Hh)]];
        rewrite Hg, Hh.
      * exact Ho.
      * tauto.
      * split; discriminate.
    + rewrite list_lookup_insert_ne in Hlu by congruence.
      pose proof (inv_owner s Hi k u lu Hlu) as Ho.
      destruct (Heff k) as [[Hg Hh] | [(Hn & Hg & Hh) | (Hn & Hg & Hh)]];
        rewrite Hg.
      * exact Ho.
      * rewrite Hn in Ho. split; [congruence|]. intros H. apply Ho in H. discriminate.
      * rewrite Hn in Ho. split; [discriminate|]. intros H. apply Ho in H. congruence.
Qed.

Lemma elem_of_tail (w : list tid) (u : tid) : u ∈ tail w -> u ∈ w.
Proof. destruct w; cbn; [auto | intros H; apply elem_of_cons; auto]. Qed.

Lemma NoDup_tail (w : list tid) : NoDup w -> NoDup (tail w).
Proof. destruct w; cbn; [auto | apply NoDup_cons_1_2]. Qed.

Lemma inv_fire t m s s' : inv s -> fire t m s = Some s' -> inv s'.
Proof.
  intros Hi Hf. unfold fire in Hf.
  destruct (st_threads s !! t) as [l|] eqn:Hl; [|discriminate].
  assert (Ht : (t < length (st_threads s))%nat) by (eapply lookup_lt_Some; eauto).
  pose proof (inv_owns_own s t l Hi Hl) as Ho.
  pose proof (inv_local s Hi t l Hl) as Hw.
  destruct m as [|a].
  - destruct (exec t (st_gate s) l) as [e g' l'| |] eqn:He; try discriminate.
    injection Hf as <-.
    destruct (owner_preserved s t l g' l' Hi Hl
                (fun k => exec_lock_effect t _ l e g' l' k Ho Hw He)) as [Hv Hown].
    destruct (exec_waiters t _ l e g' l' He) as [Hq Hwt].
    split; cbn [st_gate st_threads].
    + exact Hv.
    + exact Hown.
    + intros u lu Hlu. destruct (decide (u = t)) as [->|Hne].
      * rewrite list_lookup_insert_eq in Hlu by exact Ht. injection Hlu as <-.
        eapply exec_wf; eauto.
      * rewrite list_lookup_insert_ne in Hlu by congruence.
        eapply inv_local; eauto.
    + intros u Hu.
      assert (Hcase : (u ∈ g_waiters (st_gate s) /\ (u = t -> l_pc l' = Wait_blocked))
                      \/ (u = t /\ l_pc l' = Wait_blocked)).
      { destruct Hwt as [[Hg Hp] | [(Hg & Hp & Hp') | [(Hg & Hp & Hp') | [Hg Hp]]]];
          rewrite Hg in Hu.
        - left. split; [exact Hu|]. intros ->.
          destruct (inv_waiters s Hi t Hu) as (l0 & Hl0 & Hpc).
          rewrite Hl in Hl0. injection Hl0 as <-. tauto.
        - apply elem_of_app in Hu as [Hu | Hu].
          + left. split; [exact Hu | auto].
          + right. apply list_elem_of_singleton in Hu. auto.
        - left. apply elem_of_tail in Hu. split; [exact Hu|]. intros ->.
          destruct (inv_waiters s Hi t Hu) as (l0 & Hl0 & Hpc).
          rewrite Hl in Hl0. injection Hl0 as <-. contradiction.
        - inversion Hu. }
      destruct Hcase as [[Hu' Hp] | [-> Hp]].
      * destruct (decide (u = t)) as [->|Hne].
        -- exists l'. rewrite list_lookup_insert_eq by exact Ht. auto.
        -- rewrite list_lookup_insert_ne by congruence.
           eapply inv_waiters; eauto.
      * exists l'. rewrite list_lookup_insert_eq by exact Ht. auto.
    + pose proof (inv_waiters_nodup s Hi) as Hnd.
      destruct Hwt as [[Hg Hp] | [(Hg & Hp & Hp') | [(Hg & Hp & Hp') | [Hg Hp]]]];
        rewrite Hg.
      * exact Hnd.
      * apply NoDup_app. split; [exact Hnd|]. split; [|apply NoDup_singleton].
        intros u Hu Hu'. apply list_elem_of_singleton in Hu'. subst u.
        destruct (inv_waiters s Hi t Hu) as (l0 & Hl0 & Hpc).
        rewrite Hl in Hl0. injection Hl0 as <-. congruence.
      * apply NoDup_tail, Hnd.
      * constructor.
    + rewrite (total_insert counted _ t l l' Hl).
      pose proof (exec_count t _ l e g' l' He). pose proof (inv_count s Hi). lia.
    + rewrite (total_insert candidate _ t l l' Hl).
      pose proof (exec_candidate t _ l e g' l' He).
      pose proof (inv_candidates s Hi). lia.
  - destruct (user_step a l) as [l'|] eqn:Hu; [|discriminate].
    injection Hf as <-.
    destruct (user_step_pc a l l' Hu) as [Hpc Hpc'].
    destruct (user_step_count a l l' Hu) as [Hc Hb].
    destruct (owner_preserved s t l (st_gate s) l' Hi Hl) as [Hv Hown].
    { intros k. left. split; [reflexivity | eapply user_step_holds; eauto]. }
    split; cbn [st_gate st_threads].
    + exact Hv.
    + exact Hown.
    + intros u lu Hlu. destruct (decide (u = t)) as [->|Hne].
      * rewrite list_lookup_insert_eq in Hlu by exact Ht. injection Hlu as <-.
        eapply user_step_wf; eauto.
      * rewrite list_lookup_insert_ne in Hlu by congruence.
        eapply inv_local; eauto.
    + intros u Hu'. destruct (inv_waiters s Hi u Hu') as (l0 & Hl0 & Hp0).
      destruct (decide (u = t)) as [->|Hne].
      * rewrite Hl in Hl0. injection Hl0 as <-. rewrite Hp0 in Hpc. discriminate.
      * exists l0. rewrite list_lookup_insert_ne by congruence. auto.
    + apply (inv_waiters_nodup s Hi).
    + rewrite (total_insert counted _ t l l' Hl). pose proof (inv_count s Hi). lia.
    + rewrite (total_insert candidate _ t l l' Hl).
      pose proof (inv_candidates s Hi). lia.
Qed.

Lemma reachable_inv s : reachable s -> inv s.
Proof.
  induction 1 as [n | s s' _ IH (t & m & Hf)].
  - apply inv_init.
  - eapply inv_fire; eauto.
Qed.

Lemma run_schedule_reachable sch s s' :
  reachable s -> run_schedule sch s = Some s' -> reachable s'.
Proof.
  revert s. induction sch as [|[t m] sch IH]; intros s Hr H; cbn in H.
  - injection H as <-. exact Hr.
  - destruct (fire t m s) as [s1|] eqn:Hf; [|discriminate].
    apply (IH s1); [|exact H]. eapply reachable_step; [exact Hr|]. exists t, m. exact Hf.
Qed.

(** ** Consequences of the invariant *)

Lemma counted_range l : 0 <= counted l.
Proof. unfold counted. repeat case_match; lia. Qed.

Lemma holder_unique s k t u lt lu :
  inv s -> st_threads s !! t = Some lt -> st_threads s !! u = Some lu ->
  holds k lt = true -> holds k lu = true -> t = u.
Proof.
  intros Hi Ht Hu Hht Hhu.
  apply (inv_owner s Hi k t lt Ht) in Hht.
  apply (inv_owner s Hi k u lu Hu) in Hhu. congruence.
Qed.

(** Only line 34 makes [_count] larger. *)
Lemma exec_count_le t g l e g' l' :
  exec t g l = Ok e g' l' ->
  g_count g' <= g_count g \/ l_pc l = TcEnter_incr.
Proof.
  intros He.
  enough (g_count g' = g_count g \/ g_count g' = g_count g - 1
          \/ l_pc l = TcEnter_incr) by (intuition lia).
  destruct g as [c b lk el cd w].
  break_local l; run_exec He;
    first [left; reflexivity | right; left; reflexivity | right; right; reflexivity].
Qed.

(** The counters change with the condition's lock held. *)
Lemma exec_counters t g l e g' l' :
  exec t g l = Ok e g' l' ->
  (g_count g' = g_count g /\
   g_blocking_candidates_count g' = g_blocking_candidates_count g)
  \/ holds L_condition l = true.
Proof.
  intros He. destruct g as [c b lk el cd w].
  break_local l; run_exec He; first [right; reflexivity | left; split; reflexivity].
Qed.

(** ** The shape of the calls *)

Lemma method_run_user t l h l' :
  method_run t l h l' -> in_user_code (l_pc l) = true -> h = [] /\ l' = l.
Proof.
  intros H Hu. destruct H as [|l g e g' l1 h l' He _]; [auto|].
  unfold exec in He. destruct (l_pc l); discriminate.
Qed.

Lemma method_run_delta_count t l h l' :
  method_run t l h l' -> delta g_count h = counted l' - counted l.
Proof.
  induction 1 as [|l g e g' l1 h l' He _ IH]; cbn [delta foldr op_after op_before].
  - lia.
  - fold (delta g_count h). pose proof (exec_count _ _ _ _ _ _ He). lia.
Qed.

Lemma method_run_delta_candidates t l h l' :
  method_run t l h l' ->
  delta g_blocking_candidates_count h = candidate l' - candidate l.
Proof.
  induction 1 as [|l g e g' l1 h l' He _ IH]; cbn [delta foldr op_after op_before].
  - lia.
  - fold (delta g_blocking_candidates_count h).
    pose proof (exec_candidate _ _ _ _ _ _ He). lia.
Qed.

(** One more operation of a run whose thread is not in user code. *)
Ltac next_op :=
  match goal with
  | H : method_run _ _ _ _ |- _ =>
      let He := fresh "He" in
      inversion H as [? | ? ? ? ? ? ? ? He ?]; subst; clear H;
      [ cbn in *; congruence
      | cbn in He; unfold_ops; cbn in He;
        repeat (case_match; cbn in He; try discriminate); simplify_eq ]
  end.

Ltac end_of_run :=
  match goal with
  | H : method_run _ _ _ _ |- _ =>
      apply method_run_user in H as [-> ->]; [|reflexivity]
  end.

(** [ChatThreadcount.__enter__]: seven operations, no branch. *)
Lemma ChatThreadcount_enter_shape t l h l' :
  l_pc l = ChatThreadcount_enter ->
  method_run t l h l' -> in_user_code (l_pc l') = true ->
  events h = [EvAcquire L_entry_lock; EvAcquire L_lock; EvRelease L_lock;
              EvAcquire L_condition; EvCountIncr; EvRelease L_condition;
              EvRelease L_entry_lock]
  /\ l' = goto User (set_in_threadcount true l).
Proof.
  intros Hpc H Hu. destruct l as [p ub itc d tr bs]. cbn in Hpc. subst p.
  do 7 next_op.
  all: end_of_run.
  all: split; reflexivity.
Qed.

(** [ChatThreadcount.__exit__]: four operations, no branch. *)
Lemma ChatThreadcount_exit_shape t l h l' :
  l_pc l = ChatThreadcount_exit ->
  method_run t l h l' -> in_user_code (l_pc l') = true ->
  events h = [EvAcquire L_condition; EvCountDecr; EvNotify; EvRelease L_condition]
  /\ l' = goto Finished (set_in_threadcount false l).
Proof.
  intros Hpc H Hu. destruct l as [p ub itc d tr bs]. cbn in Hpc. subst p.
  do 4 next_op.
  all: end_of_run.
  all: split; reflexivity.
Qed.

(** [ChatLock.__exit__] with [remove_blocking_candidate]: five operations;
    the first leaves [_lock] unlocked. *)
Lemma ChatLock_exit_shape t l h l' :
  l_pc l = ChatLock_exit ->
  method_run t l h l' -> in_user_code (l_pc l') = true ->
  events h = [EvRelease L_lock; EvAcquire L_condition; EvCandDecr; EvNotifyAll;
              EvRelease L_condition]
  /\ (exists o, head h = Some o /\ g_lock (op_after o) = None)
  /\ l' = goto User l.
Proof.
  intros Hpc H Hu. destruct l as [p ub itc d tr bs]. cbn in Hpc. subst p.
  do 5 next_op.
  all: end_of_run.
  all: split; [reflexivity|]; split; [|reflexivity].
  all: eexists; split; [reflexivity|]; reflexivity.
Qed.

(** The loop of lines 60 and 61 ends with a test that finds
    [_count <= _blocking_candidates_count]; three operations follow. *)
Lemma drain_loop_shape t l h l' :
  method_run t l h l' -> in_user_code (l_pc l') = true ->
  before_drain (l_pc l) = true -> l_unblocked l = true ->
  exists hw g h3,
    h = hw ++ Op g (EvWhile false) g :: h3
    /\ Forall (fun o => is_before_drain_event (op_event o) = true) hw
    /\ g_count g <= g_blocking_candidates_count g
    /\ events h3 = [EvRelease L_condition; EvRelease L_entry_lock; EvReturn]
    /\ l' = goto User (set_in_chat_lock (S (l_in_chat_lock l)) l).
Proof.
  induction 1 as [l | l g e g' l1 h l' He H IH]; intros Hu Hb Hub.
  - destruct (l_pc l); discriminate.
  - destruct l as [p ub itc d tr bs]. cbn in Hub. subst ub.
    destruct p; try discriminate Hb; clear Hb.
    all: cbn in He; unfold_ops; cbn in He.
    all: repeat (case_match; cbn in He; try discriminate); simplify_eq.
    all: try (destruct (IH Hu eq_refl eq_refl) as (hw & gd & h3 & -> & Hw & Hd & He3 & ->);
              eexists (_ :: hw), gd, h3; split; [reflexivity|];
              split; [constructor; [reflexivity | exact Hw]|];
              split; [exact Hd|]; split; [exact He3 | reflexivity]).
    (* the test of line 60 is false *)
    match goal with Hlt : (_ <? _) = false |- _ => apply Z.ltb_ge in Hlt end.
    do 3 next_op. end_of_run.
    eexists [], _, _. split; [reflexivity|]. split; [constructor|].
    split; [assumption|]. split; reflexivity.
Qed.

(** [ChatLock.__enter__]: [add_blocking_candidate], [_entry_lock], one
    [acquire(False)]; then the loop and [return], or [raise]. *)
Lemma ChatLock_enter_shape t l h l' :
  l_pc l = ChatLock_enter ->
  method_run t l h l' -> in_user_code (l_pc l') = true ->
  exists h0 g g' h1,
    events h0 = [EvAcquire L_condition; EvCandIncr; EvNotifyAll;
                 EvRelease L_condition; EvAcquire L_entry_lock]
    /\ ((h = h0 ++ Op g (EvTryAcquire L_lock true) g' :: h1
         /\ g_lock g = None
         /\ (exists o hw gd h3,
               h1 = o :: hw ++ Op gd (EvWhile false) gd :: h3
               /\ op_event o = EvIf true
               /\ Forall (fun o => is_before_drain_event (op_event o) = true) hw
               /\ g_count gd <= g_blocking_candidates_count gd
               /\ events h3 = [EvRelease L_condition; EvRelease L_entry_lock;
                               EvReturn])
         /\ l' = goto User (set_in_chat_lock (S (l_in_chat_lock l))
                              (set_unblocked true l)))
        \/ (h = h0 ++ Op g (EvTryAcquire L_lock false) g' :: h1
            /\ g_lock g <> None
            /\ events h1 = [EvIf false; EvRelease L_entry_lock; EvRaiseBusy]
            /\ l' = goto User (set_busy_seen (S (l_busy_seen l))
                                 (set_unblocked false l)))).
Proof.
  intros Hpc H Hu. destruct l as [p ub itc d tr bs]. cbn in Hpc. subst p.
  do 6 next_op.
  - (* acquire(False) gave False *)
    do 3 next_op. end_of_run.
    eexists [_; _; _; _; _], _, _, _. split; cycle 1.
    { right. split; [reflexivity|]. split; [congruence|]. split; reflexivity. }
    reflexivity.
  - (* acquire(False) gave True *)
    match goal with H : method_run _ _ _ _ |- _ =>
      pose proof (drain_loop_shape _ _ _ _ H Hu eq_refl eq_refl) as Hloop
    end.
    destruct Hloop as (hw & gd & h3 & -> & Hw & Hd & He3 & ->).
    destruct hw as [|o hw].
    { (* the loop is entered through line 97 *)
      exfalso. cbn in *.
      match goal with H : method_run _ _ (_ :: _) _ |- _ =>
        inversion H as [|? ? ? ? ? ? ? He' ?]; subst; cbn in He'; discriminate end. }
    apply Forall_cons in Hw as [Ho Hw]. cbn [app] in *.
    match goal with H : method_run _ _ (_ :: _) _ |- _ =>
      inversion H as [|? ? ? ? ? ? ? He' ?]; subst; cbn in He'; simplify_eq end.
    eexists [_; _; _; _; _], _, _, _. split; cycle 1.
    { left. split; [reflexivity|]. split; [assumption|]. split; [|reflexivity].
      eexists _, hw, gd, h3. split; [reflexivity|].
      split; [reflexivity|]. split; [assumption|]. split; assumption. }
    reflexivity.
Qed.

(** ** More consequences of the invariant *)

(** [threading] never raises [RuntimeError]: a thread releases the locks
    it has and notifies with the condition's lock. *)
Lemma exec_no_fault t g l : owns_own t g l -> exec t g l <> Fault.
Proof.
  intros Ho. apply owns_own_facts in Ho. destruct Ho as (HL & HE & HC).
  destruct g as [c b lk el cd w].
  break_local l; cbn in *; unfold_ops; cbn in *.
  all: repeat (case_match; cbn in * ); try discriminate.
  all: rewrite ?orb_true_r in *.
  all: intuition congruence.
Qed.

Lemma reachable_no_fault s t l :
  reachable s -> st_threads s !! t = Some l -> exec t (st_gate s) l <> Fault.
Proof.
  intros Hr Hl. apply exec_no_fault, inv_owns_own; [apply reachable_inv|]; assumption.
Qed.

(** A thread arrives at the end of the loop of line 60 by a test that
    found [_count <= _blocking_candidates_count]. *)
Lemma exec_to_wait_release t g l e g' l' :
  exec t g l = Ok e g' l' -> l_pc l' = Wait_cond_release ->
  g_count g' <= g_blocking_candidates_count g'.
Proof.
  intros He Hpc. destruct g as [c b lk el cd w].
  break_local l; cbn in He; unfold_ops; cbn in He.
  all: repeat (case_match; cbn in He; try discriminate); simplify_eq.
  all: cbn in Hpc; try discriminate.
  match goal with Hlt : (_ <? _) = false |- _ => apply Z.ltb_ge in Hlt end.
  assumption.
Qed.

Lemma user_step_not_wait a l l' :
  user_step a l = Some l' -> in_wait (l_pc l') = false.
Proof.
  intros Hu. destruct a; break_local l; cbn in *;
    repeat (case_match; cbn in * ); simplify_eq; reflexivity.
Qed.

Lemma wait_return_drained s :
  reachable s ->
  forall t l, st_threads s !! t = Some l -> l_pc l = Wait_cond_release ->
  g_count (st_gate s) <= g_blocking_candidates_count (st_gate s).
Proof.
  induction 1 as [n | s s' Hr IH (t0 & m & Hf)]; intros t l Hl Hpc.
  - apply lookup_replicate in Hl as [-> _]. discriminate.
  - pose proof (reachable_inv s Hr) as Hi. unfold fire in Hf.
    destruct (st_threads s !! t0) as [l0|] eqn:Hl0; [|discriminate].
    assert (Ht0 : (t0 < length (st_threads s))%nat) by (eapply lookup_lt_Some; eauto).
    destruct m as [|a].
    + destruct (exec t0 (st_gate s) l0) as [e g' l0'| |] eqn:He; try discriminate.
      injection Hf as <-. cbn [st_gate st_threads] in *.
      destruct (decide (t = t0)) as [->|Hne].
      * rewrite list_lookup_insert_eq in Hl by exact Ht0. injection Hl as <-.
        eapply exec_to_wait_release; eauto.
      * rewrite list_lookup_insert_ne in Hl by congruence.
        destruct (exec_counters _ _ _ _ _ _ He) as [[-> ->] | Hh].
        -- eapply IH; eauto.
        -- exfalso. apply Hne.
           eapply (holder_unique s L_condition); eauto.
           unfold holds, holds_at. rewrite Hpc. reflexivity.
    + destruct (user_step a l0) as [l0'|] eqn:Hu; [|discriminate].
      injection Hf as <-. cbn [st_gate st_threads] in *.
      destruct (decide (t = t0)) as [->|Hne].
      * rewrite list_lookup_insert_eq in Hl by exact Ht0. injection Hl as <-.
        apply user_step_not_wait in Hu. rewrite Hpc in Hu. discriminate.
      * rewrite list_lookup_insert_ne in Hl by congruence. eapply IH; eauto.
Qed.

(** The comment of line 44: there can only be one blocking thread. *)
Lemma at_most_one_waiter s :
  reachable s -> (length (g_waiters (st_gate s)) <= 1)%nat.
Proof.
  intros Hr. pose proof (reachable_inv s Hr) as Hi.
  pose proof (inv_waiters_nodup s Hi) as Hnd.
  assert (Hall : forall t, t ∈ g_waiters (st_gate s) -> g_lock (st_gate s) = Some t).
  { intros t Ht. destruct (inv_waiters s Hi t Ht) as (l & Hl & Hpc).
    apply (inv_owner s Hi L_lock t l Hl).
    destruct (inv_local s Hi t l Hl) as (_ & _ & Hw).
    unfold holds, holds_at. rewrite Hpc in *. rewrite (Hw eq_refl).
    apply orb_true_r. }
  destruct (g_waiters (st_gate s)) as [|a [|b w]]; cbn; try lia.
  exfalso. apply NoDup_cons in Hnd as [Hnotin _]. apply Hnotin.
  pose proof (Hall a ltac:(apply elem_of_cons; auto)) as Ha.
  pose proof (Hall b ltac:(apply elem_of_cons; right; apply elem_of_cons; auto)) as Hb.
  rewrite Ha in Hb. injection Hb as ->. apply elem_of_cons. auto.
Qed.

Lemma total_ext (f f' : local -> Z) (ths : list local) :
  (forall t l, ths !! t = Some l -> f l = f' l) -> total f ths = total f' ths.
Proof.
  induction ths as [|x ths IH]; intros H; [reflexivity|].
  change (f x + total f ths = f' x + total f' ths).
  rewrite (H 0%nat x eq_refl), IH; [reflexivity|].
  intros t l Hl. exact (H (S t) l Hl).
Qed.

(** With no attempt outstanding, [_blocking_candidates_count] is the
    number of attempts that raised. *)
Lemma candidates_without_attempt s :
  reachable s ->
  (forall t l, st_threads s !! t = Some l -> no_attempt l = true) ->
  g_blocking_candidates_count (st_gate s)
  = total (fun l => Z.of_nat (l_busy_seen l)) (st_threads s).
Proof.
  intros Hr Hall. rewrite (inv_candidates s (reachable_inv s Hr)).
  apply total_ext. intros t l Hl. specialize (Hall t l Hl).
  unfold no_attempt in Hall. apply andb_true_iff in Hall as [H1 H2].
  apply Z.eqb_eq in H1. apply Nat.eqb_eq in H2. unfold candidate. lia.
Qed.

(** The last operation of a run is an operation that ends where the run
    ends. *)
Lemma method_run_last t l h l' e :
  method_run t l h l' -> last (events h) = Some e ->
  exists g g' l0, exec t g l0 = Ok e g' l'.
Proof.
  induction 1 as [l | l g e0 g' l1 h l' He H IH]; intros Hlast.
  - discriminate.
  - destruct H as [l1 | l1 g1 e1 g1' l2 h l' He1 H].
    + cbn in Hlast. injection Hlast as <-. eauto.
    + apply IH. exact Hlast.
Qed.

Lemma exec_return_or_raise t g l e g' l' :
  exec t g l = Ok e g' l' -> e = EvReturn \/ e = EvRaiseBusy ->
  l_pc l = ClEnter_if_not_unblocked /\ l_pc l' = User
  /\ (e = EvRaiseBusy <-> l_unblocked l = false).
Proof.
  intros He Hev. destruct g as [c b lk el cd w].
  break_local l; cbn in He; unfold_ops; cbn in He.
  all: repeat (case_match; cbn in He; try discriminate); simplify_eq.
  all: destruct Hev; try discriminate.
  all: repeat split; try reflexivity; try discriminate; auto.
Qed.

Lemma events_app (h1 h2 : list op) : events (h1 ++ h2) = events h1 ++ events h2.
Proof. apply map_app. Qed.

Lemma Forall_events (P : event -> Prop) (h : list op) :
  Forall P (events h) -> Forall (fun o => P (op_event o)) h.
Proof. unfold events. rewrite Forall_map. auto. Qed.

Lemma last_events_app (h1 h2 : list op) (e : event) :
  last (events h2) = Some e -> last (events (h1 ++ h2)) = Some e.
Proof. intros H. rewrite events_app, last_app, H. reflexivity. Qed.

Lemma last_events_cons (o : op) (h : list op) (e : event) :
  last (events h) = Some e -> last (events (o :: h)) = Some e.
Proof. apply (last_events_app [o]). Qed.

Lemma before_drain_event_no_take e :
  is_before_drain_event e = true -> takes_lock e = false.
Proof. destruct e; cbn; repeat case_match; congruence. Qed.

Lemma history_run n t g l :
  method_run t l (fst (history n t g l)) (snd (history n t g l)).
Proof.
  revert g l. induction n as [|n IH]; intros g l; cbn [history].
  - destruct (in_user_code (l_pc l)); constructor.
  - destruct (in_user_code (l_pc l)); [constructor|].
    destruct (exec t g l) as [e g' l'| |] eqn:He; try constructor.
    specialize (IH g' l'). destruct (history n t g' l') as [h lf].
    econstructor; eauto.
Qed.

(** What a failed attempt costs.  On a new chat lock a thread that enters
    [with chat_lock:] while another thread is admitted sleeps at line 61.
    After one attempt has raised, the same thread returns from
    [__enter__] while the other thread is still admitted and has made no
    attempt. *)
Example failed_attempt_admits_second_thread :
  st_threads (after drain_schedule (init 3))
  = [Local User false true 0 false 0; Local Wait_blocked true true 0 false 0;
     local_init]
  /\ exec 1 (st_gate (after drain_schedule (init 3)))
          (Local Wait_blocked true true 0 false 0) = Blocked
  /\ reachable (after leak_schedule (init 4))
  /\ st_threads (after leak_schedule (init 4))
     = [Local Finished true false 0 false 0; Local Finished false false 0 true 1;
        Local User true true 1 false 0; Local User false true 0 false 0]
  /\ st_gate (after leak_schedule (init 4))
     = Gate 2 2 (Some 2%nat) None None [].
Proof.
  split; [vm_compute; reflexivity|]. split; [vm_compute; reflexivity|].
  split; [|split; vm_compute; reflexivity].
  apply (run_schedule_reachable leak_schedule (init 4)).
  - apply reachable_init.
  - vm_compute. reflexivity.
Qed.

(** [ChatThreadcount.__enter__], operation by operation, with the gate
    each operation found and the gate it left. *)
Lemma ChatThreadcount_enter_ops t l h l' :
  l_pc l = ChatThreadcount_enter ->
  method_run t l h l' -> in_user_code (l_pc l') = true ->
  exists g1 g2 g3 g4 g5 g6 g7,
    h = [Op g1 (EvAcquire L_entry_lock) (set_lock L_entry_lock (Some t) g1);
         Op g2 (EvAcquire L_lock) (set_lock L_lock (Some t) g2);
         Op g3 (EvRelease L_lock) (set_lock L_lock None g3);
         Op g4 (EvAcquire L_condition) (set_lock L_condition (Some t) g4);
         Op g5 EvCountIncr
            (Gate (g_count g5 + 1) (g_blocking_candidates_count g5) (g_lock g5)
                  (g_entry_lock g5) (g_condition g5) (g_waiters g5));
         Op g6 (EvRelease L_condition) (set_lock L_condition None g6);
         Op g7 (EvRelease L_entry_lock) (set_lock L_entry_lock None g7)]
    /\ g_entry_lock g1 = None /\ g_lock g2 = None /\ g_condition g4 = None.
Proof.
  intros Hpc H Hu. destruct l as [p ub itc d tr bs]. cbn in Hpc. subst p.
  do 7 next_op.
  all: end_of_run.
  all: do 7 eexists; split; [reflexivity|]; repeat split; assumption.
Qed.

(** A thread that is inside [with self._condition:] has the condition's
    lock. *)
Lemma reachable_has_condition s t l :
  reachable s -> st_threads s !! t = Some l -> holds L_condition l = true ->
  g_condition (st_gate s) = Some t.
Proof.
  intros Hr Hl Hh. pose proof (reachable_inv s Hr) as Hi.
  exact (proj2 (inv_owner s Hi L_condition t l Hl) Hh).
Qed.

(** With nobody queued, every thread inside [wait()] goes on. *)
Lemma no_waiter_woken u g lu :
  g_waiters g = [] -> l_pc lu = Wait_blocked ->
  exec u g lu = Ok EvWoken g (goto Wait_reacquire lu).
Proof.
  intros Hw Hpc. unfold exec. rewrite Hpc, Hw.
  destruct (decide (u ∈ [])) as [Hin|_]; [|reflexivity].
  apply elem_of_nil in Hin. destruct Hin.
Qed.
(** * The claims *)

(** C1. An attempt that finds [_lock] locked: [__enter__] raises at line
    106 after [add_blocking_candidate], and nothing runs
    [remove_blocking_candidate]; Python does not call [__exit__] when
    [__enter__] raises.  The counters and locks after the failure are
    those before it except [_blocking_candidates_count], which is one
    larger. *)
Theorem C1_busy_leaves_candidate (t : tid) (g : gate) (l : local) (u : tid) :
  l_pc l = User -> g_lock g = Some u ->
  g_entry_lock g = None -> g_condition g = None ->
  call ChatLock_enter 9 t g l =
    ([EvAcquire L_condition; EvCandIncr; EvNotifyAll; EvRelease L_condition;
      EvAcquire L_entry_lock; EvTryAcquire L_lock false; EvIf false;
      EvRelease L_entry_lock; EvRaiseBusy],
     set_waiters []
       (set_blocking_candidates_count (g_blocking_candidates_count g + 1) g),
     goto User (set_busy_seen (S (l_busy_seen l)) (set_unblocked false l)),
     Returns).
Proof.
  intros Hpc Hlk Hel Hcd.
  destruct g as [c b lk el cd w]. destruct l as [p ub itc d tr bs].
  cbn in Hpc, Hlk, Hel, Hcd. subst.
  unfold call, ChatLock_enter. solo_run. reflexivity.
Qed.

Lemma C1_witness :
  let g := Gate 2 1 (Some 0%nat) None None [] in
  let l := Local User false true 0 false 0 in
  g_lock g = Some 0%nat
  /\ exists es g' l',
       call ChatLock_enter 9 1%nat g l = (es, g', l', Returns)
       /\ last es = Some EvRaiseBusy
       /\ (EvCandDecr ∉ es)
       /\ g_blocking_candidates_count g' = 2
       /\ g_count g' = 2 /\ g_lock g' = Some 0%nat.
Proof.
  cbv zeta. split; [reflexivity|]. eexists _, _, _. split.
  - apply (C1_busy_leaves_candidate 1%nat (Gate 2 1 (Some 0%nat) None None [])
             (Local User false true 0 false 0) 0%nat); reflexivity.
  - split; [reflexivity|]. split; [|repeat split].
    intros H. repeat (apply elem_of_cons in H as [H|H]; [discriminate|]).
    inversion H.
Defined.




(** C3. Two threads of [Plugin._start]; thread 0 is in a
    [with chat_lock:] block when thread 1 tries to enter one and gets the
    exception.  When both threads have ended, no attempt is outstanding
    and [_count] is 0, but [_blocking_candidates_count] is 1. *)
Theorem C3_candidate_left_after_busy :
  reachable (after busy_schedule (init 2))
  /\ st_threads (after busy_schedule (init 2))
     = [Local Finished true false 0 false 0; Local Finished false false 0 true 1]
  /\ (forall t l, st_threads (after busy_schedule (init 2)) !! t = Some l ->
        no_attempt l = true /\ idle l = true)
  /\ g_count (st_gate (after busy_schedule (init 2))) = 0
  /\ g_blocking_candidates_count (st_gate (after busy_schedule (init 2))) = 1.
Proof.
  split; [|split; [|split; [|split]]].
  - apply (run_schedule_reachable busy_schedule (init 2)).
    + apply reachable_init.
    + vm_compute. reflexivity.
  - vm_compute. reflexivity.
  - intros t l Hl. vm_compute in Hl.
    destruct t as [|[|t]]; simplify_eq; split; reflexivity.
  - vm_compute. reflexivity.
  - vm_compute. reflexivity.
Qed.

(** C4. [ChatLock.__enter__] makes one [acquire(False)] of [_lock] and no
    other attempt to take it; it raises exactly when that call found
    [_lock] locked, and then three operations remain, none of which can
    wait: the test of line 97, the release of [_entry_lock], the [raise]
    of line 106.  Line 106 is the only [raise], and [threading] raises
    nothing in a reachable state. *)
Theorem C4_busy_iff_lock_taken :
  (forall t l h l', l_pc l = ChatLock_enter -> method_run t l h l' ->
     in_user_code (l_pc l') = true ->
     exists h0 g ok g' h1,
       h = h0 ++ Op g (EvTryAcquire L_lock ok) g' :: h1
       /\ Forall (fun o => takes_lock (op_event o) = false) (h0 ++ h1)
       /\ (ok = false <-> g_lock g <> None)
       /\ (last (events h) = Some EvRaiseBusy <-> ok = false)
       /\ (ok = false ->
           events h1 = [EvIf false; EvRelease L_entry_lock; EvRaiseBusy]))
  /\ (forall t g l,
        l_pc l = ClEnter_try \/ l_pc l = ClEnter_if_unblocked
        \/ l_pc l = ClEnter_entry_release \/ l_pc l = ClEnter_if_not_unblocked ->
        exec t g l <> Blocked)
  /\ (forall s t l, reachable s -> st_threads s !! t = Some l ->
        exec t (st_gate s) l <> Fault)
  /\ (forall t g l g' l', exec t g l = Ok EvRaiseBusy g' l' ->
        l_pc l = ClEnter_if_not_unblocked /\ l_unblocked l = false).
Proof.
  split; [|split; [|split]].
  - intros t l h l' Hpc H Hu.
    destruct (ChatLock_enter_shape t l h l' Hpc H Hu)
      as (h0 & g & g' & h1 & Hh0 & [Hok | Hbusy]).
    + destruct Hok as (-> & Hg & (o & hw & gd & h3 & -> & Ho & Hw & _ & He3) & _).
      exists h0, g, true, g', (o :: hw ++ Op gd (EvWhile false) gd :: h3).
      split; [reflexivity|]. split; [|split; [|split]].
      * apply Forall_app. split.
        -- apply (Forall_events (fun e => takes_lock e = false)).
           rewrite Hh0. repeat constructor.
        -- constructor; [rewrite Ho; reflexivity|].
           apply Forall_app. split.
           ++ eapply Forall_impl; [exact Hw|].
              intros x Hx. apply before_drain_event_no_take, Hx.
           ++ constructor; [reflexivity|].
              apply (Forall_events (fun e => takes_lock e = false)).
              rewrite He3. repeat constructor.
      * split; [discriminate | congruence].
      * split; [|discriminate]. intros Hlast. exfalso.
        rewrite (last_events_app h0 _ EvReturn) in Hlast; [discriminate|].
        do 2 apply last_events_cons. apply last_events_app, last_events_cons.
        rewrite He3. reflexivity.
      * discriminate.
    + destruct Hbusy as (-> & Hg & He1 & _).
      exists h0, g, false, g', h1. split; [reflexivity|]. split; [|split; [|split]].
      * apply Forall_app.
        split; apply (Forall_events (fun e => takes_lock e = false)).
        -- rewrite Hh0. repeat constructor.
        -- rewrite He1. repeat constructor.
      * tauto.
      * split; [reflexivity|]. intros _.
        apply last_events_app, last_events_cons. rewrite He1. reflexivity.
      * intros _. exact He1.
  - intros t g l Hpc. unfold exec, do_release.
    destruct Hpc as [-> | [-> | [-> | ->]]]; cbn; repeat case_match; discriminate.
  - intros s t l Hr Hl. apply reachable_no_fault; assumption.
  - intros t g l g' l' He.
    destruct (exec_return_or_raise _ _ _ _ _ _ He (or_intror eq_refl))
      as (Hpc & _ & Hub).
    split; [exact Hpc | apply Hub; reflexivity].
Qed.

Lemma C4_witness :
  let g := Gate 2 1 (Some 0%nat) None None [] in
  let l := Local ChatLock_enter false true 0 false 0 in
  let h := fst (history 9 1%nat g l) in
  events h =
    [EvAcquire L_condition; EvCandIncr; EvNotifyAll; EvRelease L_condition;
     EvAcquire L_entry_lock; EvTryAcquire L_lock false; EvIf false;
     EvRelease L_entry_lock; EvRaiseBusy]
  /\ exists h0 g0 ok g0' h1,
       h = h0 ++ Op g0 (EvTryAcquire L_lock ok) g0' :: h1
       /\ Forall (fun o => takes_lock (op_event o) = false) (h0 ++ h1)
       /\ (ok = false <-> g_lock g0 <> None)
       /\ (last (events h) = Some EvRaiseBusy <-> ok = false)
       /\ (ok = false ->
           events h1 = [EvIf false; EvRelease L_entry_lock; EvRaiseBusy]).
Proof.
  cbv zeta. split; [vm_compute; reflexivity|].
  apply (proj1 C4_busy_iff_lock_taken 1%nat
           (Local ChatLock_enter false true 0 false 0) _
           (snd (history 9 1%nat (Gate 2 1 (Some 0%nat) None None [])
                   (Local ChatLock_enter false true 0 false 0)))).
  - reflexivity.
  - apply history_run.
  - vm_compute. reflexivity.
Defined.

(** C5. Every change of a counter wakes all the threads that wait on the
    condition.  [ChatThreadcount.__exit__] takes the condition's lock,
    subtracts one from [_count] and wakes; [add_blocking_candidate] and
    [remove_blocking_candidate] add one to and subtract one from
    [_blocking_candidates_count] and wake.  Lines 51 and 56 call
    [notify_all()]; line 46 calls [notify()], and in every state the
    program can reach it leaves what [notify_all()] leaves: nobody is
    queued afterwards, and every thread inside [wait()] goes on. *)
Theorem C5_counter_changes_wake_every_waiter :
  (forall t l h l', l_pc l = ChatThreadcount_exit -> method_run t l h l' ->
     in_user_code (l_pc l') = true ->
     events h = [EvAcquire L_condition; EvCountDecr; EvNotify;
                 EvRelease L_condition]
     /\ delta g_count h = -1)
  /\ (forall t g l, l_pc l = TcExit_decr ->
        exec t g l
        = Ok EvCountDecr
             (Gate (g_count g - 1) (g_blocking_candidates_count g) (g_lock g)
                   (g_entry_lock g) (g_condition g) (g_waiters g))
             (goto TcExit_notify l))
  /\ (forall t g l, l_pc l = Add_incr ->
        exec t g l
        = Ok EvCandIncr
             (Gate (g_count g) (g_blocking_candidates_count g + 1) (g_lock g)
                   (g_entry_lock g) (g_condition g) (g_waiters g))
             (goto Add_notify_all l))
  /\ (forall t g l, l_pc l = Rem_decr ->
        exec t g l
        = Ok EvCandDecr
             (Gate (g_count g) (g_blocking_candidates_count g - 1) (g_lock g)
                   (g_entry_lock g) (g_condition g) (g_waiters g))
             (goto Rem_notify_all l))
  /\ (forall s t l, reachable s -> st_threads s !! t = Some l ->
        forall e p,
        (l_pc l = TcExit_notify /\ e = EvNotify /\ p = TcExit_cond_release)
        \/ (l_pc l = Add_notify_all /\ e = EvNotifyAll /\ p = Add_cond_release)
        \/ (l_pc l = Rem_notify_all /\ e = EvNotifyAll /\ p = Rem_cond_release) ->
        let g := st_gate s in
        let g' := Gate (g_count g) (g_blocking_candidates_count g) (g_lock g)
                       (g_entry_lock g) (g_condition g) [] in
        exec t g l = Ok e g' (goto p l)
        /\ g_waiters g' = notify_all (g_waiters g)
        /\ (forall u lu, l_pc lu = Wait_blocked ->
              exec u g' lu = Ok EvWoken g' (goto Wait_reacquire lu))).
Proof.
  split; [|split; [|split; [|split]]].
  - intros t l h l' Hpc H Hu.
    pose proof (method_run_delta_count _ _ _ _ H) as Hdelta.
    destruct (ChatThreadcount_exit_shape t l h l' Hpc H Hu) as [Hev ->].
    split; [exact Hev|]. rewrite Hdelta.
    destruct l as [p ub itc d tr bs]. cbn in Hpc. subst p. reflexivity.
  - intros t g l Hpc. unfold exec. rewrite Hpc. reflexivity.
  - intros t g l Hpc. unfold exec. rewrite Hpc. reflexivity.
  - intros t g l Hpc. unfold exec. rewrite Hpc. reflexivity.
  - intros s t l Hr Hl e p Hcase. cbv zeta.
    pose proof (at_most_one_waiter s Hr) as Hone.
    assert (Hc : g_condition (st_gate s) = Some t).
    { apply (reachable_has_condition s t l Hr Hl).
      destruct Hcase as [(Hpc & _) | [(Hpc & _) | (Hpc & _)]];
        unfold holds, holds_at; rewrite Hpc; reflexivity. }
    split; [|split].
    + destruct Hcase as [(Hpc & -> & ->) | [(Hpc & -> & ->) | (Hpc & -> & ->)]];
        unfold exec, do_notify; rewrite Hpc;
        rewrite decide_True by exact Hc; unfold set_waiters, notify, notify_all;
        [|reflexivity|reflexivity].
      destruct (g_waiters (st_gate s)) as [|a [|b w]]; cbn in Hone |- *;
        [reflexivity|reflexivity|lia].
    + reflexivity.
    + intros u lu Hpc. apply no_waiter_woken; [reflexivity|exact Hpc].
Qed.

Lemma C5_witness :
  let s := after exit_schedule (init 2) in
  let l := Local TcExit_notify false true 0 false 0 in
  (st_gate s = Gate 1 1 (Some 1%nat) (Some 1%nat) (Some 0%nat) [1%nat]
   /\ st_threads s !! 1%nat = Some (Local Wait_blocked true true 0 false 0))
  /\ exec 0 (st_gate s) l
     = Ok EvNotify (Gate 1 1 (Some 1%nat) (Some 1%nat) (Some 0%nat) [])
          (Local TcExit_cond_release false true 0 false 0)
  /\ exec 1 (Gate 1 1 (Some 1%nat) (Some 1%nat) (Some 0%nat) [])
          (Local Wait_blocked true true 0 false 0)
     = Ok EvWoken (Gate 1 1 (Some 1%nat) (Some 1%nat) (Some 0%nat) [])
          (Local Wait_reacquire true true 0 false 0).
Proof.
  cbv zeta. split; [split; vm_compute; reflexivity|].
  assert (Hr : reachable (after exit_schedule (init 2))).
  { apply (run_schedule_reachable exit_schedule (init 2)).
    - apply reachable_init.
    - vm_compute. reflexivity. }
  assert (Hl : st_threads (after exit_schedule (init 2)) !! 0%nat
               = Some (Local TcExit_notify false true 0 false 0)).
  { vm_compute. reflexivity. }
  destruct (proj2 (proj2 (proj2 (proj2 C5_counter_changes_wake_every_waiter)))
              (after exit_schedule (init 2)) 0%nat
              (Local TcExit_notify false true 0 false 0) Hr Hl
              EvNotify TcExit_cond_release
              (or_introl (conj eq_refl (conj eq_refl eq_refl))))
    as (Hexec & _ & Hwoken).
  split.
  - rewrite Hexec. vm_compute. reflexivity.
  - assert (Hg : st_gate (after exit_schedule (init 2))
                 = Gate 1 1 (Some 1%nat) (Some 1%nat) (Some 0%nat) [1%nat]).
    { vm_compute. reflexivity. }
    rewrite Hg in Hwoken.
    exact (Hwoken 1%nat (Local Wait_blocked true true 0 false 0) eq_refl).
Defined.

(** C6. [ChatThreadcount.__enter__] is seven operations in this order:
    take [_entry_lock], take [_lock], give [_lock] back, take the
    condition's lock, add one to [_count], give the condition's lock back,
    give [_entry_lock] back.  [_lock] is taken only when it is free, which
    is where the method waits, and is given back by the next operation;
    the fifth operation leaves [_count] one higher and nothing else
    changed, so the call adds one to [_count].  In every reachable state a
    thread between the second and the last of them has [_entry_lock], a
    thread after the third does not have [_lock], a thread in user code
    does not have [_entry_lock], and no operation raises: the method has
    one way out, its [return].  With the three locks free the seven
    operations run at once and leave the gate as it was but for [_count]. *)
Theorem C6_admission_under_entry_lock :
  (forall t l h l', l_pc l = ChatThreadcount_enter -> method_run t l h l' ->
     in_user_code (l_pc l') = true ->
     events h = [EvAcquire L_entry_lock; EvAcquire L_lock; EvRelease L_lock;
                 EvAcquire L_condition; EvCountIncr; EvRelease L_condition;
                 EvRelease L_entry_lock]
     /\ (exists g1 g2 g3 g4 g5 g6 g7,
           h = [Op g1 (EvAcquire L_entry_lock) (set_lock L_entry_lock (Some t) g1);
                Op g2 (EvAcquire L_lock) (set_lock L_lock (Some t) g2);
                Op g3 (EvRelease L_lock) (set_lock L_lock None g3);
                Op g4 (EvAcquire L_condition) (set_lock L_condition (Some t) g4);
                Op g5 EvCountIncr
                   (Gate (g_count g5 + 1) (g_blocking_candidates_count g5)
                         (g_lock g5) (g_entry_lock g5) (g_condition g5)
                         (g_waiters g5));
                Op g6 (EvRelease L_condition) (set_lock L_condition None g6);
                Op g7 (EvRelease L_entry_lock) (set_lock L_entry_lock None g7)]
           /\ g_entry_lock g1 = None /\ g_lock g2 = None
           /\ g_condition g4 = None)
     /\ delta g_count h = 1
     /\ l' = goto User (set_in_threadcount true l))
  /\ (forall s t l, reachable s -> st_threads s !! t = Some l ->
        (in_admission (l_pc l) = true -> g_entry_lock (st_gate s) = Some t)
        /\ (l_pc l = TcEnter_cond_acquire \/ l_pc l = TcEnter_incr
            \/ l_pc l = TcEnter_cond_release \/ l_pc l = TcEnter_entry_release ->
            g_lock (st_gate s) <> Some t)
        /\ (in_user_code (l_pc l) = true -> g_entry_lock (st_gate s) <> Some t)
        /\ exec t (st_gate s) l <> Fault)
  /\ (forall t g l, l_pc l = wait_until_unblocked ->
        (exec t g l = Blocked <-> g_lock g <> None)
        /\ (g_lock g = None ->
            exec t g l = Ok (EvAcquire L_lock) (set_lock L_lock (Some t) g)
                            (goto TcEnter_lock_release l)))
  /\ (forall t g l, l_pc l = ChatThreadcount_enter ->
        g_entry_lock g = None -> g_lock g = None -> g_condition g = None ->
        run 7 t g l
        = ([EvAcquire L_entry_lock; EvAcquire L_lock; EvRelease L_lock;
            EvAcquire L_condition; EvCountIncr; EvRelease L_condition;
            EvRelease L_entry_lock],
           Gate (g_count g + 1) (g_blocking_candidates_count g) None None None
                (g_waiters g),
           goto User (set_in_threadcount true l), Returns)).
Proof.
  split; [|split; [|split]].
  - intros t l h l' Hpc H Hu.
    pose proof (method_run_delta_count _ _ _ _ H) as Hdelta.
    pose proof (ChatThreadcount_enter_ops t l h l' Hpc H Hu) as Hops.
    destruct (ChatThreadcount_enter_shape t l h l' Hpc H Hu) as [Hev ->].
    split; [exact Hev|]. split; [exact Hops|]. split; [|reflexivity].
    rewrite Hdelta. destruct l as [p ub itc d tr bs]. cbn in Hpc. subst p.
    reflexivity.
  - intros s t l Hr Hl. pose proof (reachable_inv s Hr) as Hi.
    pose proof (inv_owner s Hi L_entry_lock t l Hl) as He.
    pose proof (inv_owner s Hi L_lock t l Hl) as Hk.
    destruct (inv_local s Hi t l Hl) as (_ & Hd & _).
    pose proof (reachable_no_fault s t l Hr Hl) as Hnf.
    destruct l as [p ub itc d tr bs]. cbn in *. split; [|split; [|split]].
    4: exact Hnf.
    + intros Ha. apply He. destruct p; cbn in *; congruence.
    + intros Hp Hown. apply Hk in Hown. unfold holds, holds_at in *. cbn in *.
      destruct Hp as [-> | [-> | [-> | ->]]]; cbn in *;
        rewrite (Hd eq_refl) in Hown; discriminate.
    + intros Hu Hown. apply He in Hown. destruct p; cbn in *; congruence.
  - intros t g l Hpc. unfold exec. rewrite Hpc. unfold do_acquire. cbn.
    destruct (g_lock g) as [o|]; split.
    + split; [discriminate|reflexivity].
    + discriminate.
    + split; [discriminate|intros Hn; destruct Hn; reflexivity].
    + reflexivity.
  - intros t g l Hpc He Hk Hc.
    destruct g as [c b lk el cd w]. destruct l as [p ub itc d tr bs].
    cbn in Hpc, He, Hk, Hc. subst. unfold ChatThreadcount_enter. solo_run.
    reflexivity.
Qed.

Lemma C6_witness :
  let l := Local ChatThreadcount_enter false false 0 false 0 in
  let h := fst (history 7 2%nat (Gate 1 0 None None None []) l) in
  (snd (history 7 2%nat (Gate 1 0 None None None []) l)
     = Local User false true 0 false 0
   /\ events h = [EvAcquire L_entry_lock; EvAcquire L_lock; EvRelease L_lock;
                  EvAcquire L_condition; EvCountIncr; EvRelease L_condition;
                  EvRelease L_entry_lock]
   /\ delta g_count h = 1)
  /\ run 7 2%nat (Gate 1 0 None None None []) l
     = ([EvAcquire L_entry_lock; EvAcquire L_lock; EvRelease L_lock;
         EvAcquire L_condition; EvCountIncr; EvRelease L_condition;
         EvRelease L_entry_lock],
        Gate 2 0 None None None [],
        Local User false true 0 false 0, Returns).
Proof.
  cbv zeta. split.
  - destruct (proj1 C6_admission_under_entry_lock 2%nat
                (Local ChatThreadcount_enter false false 0 false 0) _ _
                eq_refl
                (history_run 7 2%nat (Gate 1 0 None None None [])
                   (Local ChatThreadcount_enter false false 0 false 0))
                eq_refl) as (Hev & _ & Hd & _).
    split; [vm_compute; reflexivity|]. split; [exact Hev | exact Hd].
  - apply (proj2 (proj2 (proj2 C6_admission_under_entry_lock)) 2%nat
             (Gate 1 0 None None None [])
             (Local ChatThreadcount_enter false false 0 false 0));
      reflexivity.
Defined.

(** C7. While a thread is between line 88 and line 98 of
    [ChatLock.__enter__], the wait of line 98 included, it has
    [_entry_lock]; no other thread is between line 30 and line 34 of
    [ChatThreadcount.__enter__], and no operation of any thread makes
    [_count] larger. *)
Theorem C7_no_admission_during_attempt (s : state) (e : tid) (le : local) :
  reachable s ->
  st_threads s !! e = Some le ->
  in_attempt (l_pc le) = true ->
  g_entry_lock (st_gate s) = Some e
  /\ (forall u lu, st_threads s !! u = Some lu ->
        in_admission (l_pc lu) = false)
  /\ (forall t m s', fire t m s = Some s' ->
        g_count (st_gate s') <= g_count (st_gate s)).
Proof.
  intros Hr Hle Hat. pose proof (reachable_inv s Hr) as Hi.
  assert (Hhe : holds L_entry_lock le = true).
  { destruct le as [p ? ? ? ? ?]; destruct p; cbn in *; congruence. }
  assert (Hadm : forall u lu, st_threads s !! u = Some lu ->
                   in_admission (l_pc lu) = false).
  { intros u lu Hlu. destruct (in_admission (l_pc lu)) eqn:Ha; [|reflexivity].
    assert (Hhu : holds L_entry_lock lu = true).
    { destruct lu as [p ? ? ? ? ?]; destruct p; cbn in *; congruence. }
    pose proof (holder_unique s _ _ _ _ _ Hi Hle Hlu Hhe Hhu) as ->.
    rewrite Hle in Hlu. injection Hlu as <-.
    destruct le as [p ? ? ? ? ?]; destruct p; cbn in *; congruence. }
  split; [|split].
  - apply (inv_owner s Hi L_entry_lock e le Hle), Hhe.
  - exact Hadm.
  - intros t m s' Hf. unfold fire in Hf.
    destruct (st_threads s !! t) as [l|] eqn:Hl; [|discriminate].
    destruct m as [|a].
    + destruct (exec t (st_gate s) l) as [ev g' l'| |] eqn:He; try discriminate.
      injection Hf as <-. cbn.
      destruct (exec_count_le _ _ _ _ _ _ He) as [H|H]; [exact H|].
      specialize (Hadm t l Hl). rewrite H in Hadm. discriminate.
    + destruct (user_step a l); [|discriminate]. injection Hf as <-. cbn. lia.
Qed.

Lemma C7_witness :
  g_entry_lock (st_gate (after drain_schedule (init 3))) = Some 1%nat
  /\ (forall u lu, st_threads (after drain_schedule (init 3)) !! u = Some lu ->
        in_admission (l_pc lu) = false)
  /\ (forall t m s', fire t m (after drain_schedule (init 3)) = Some s' ->
        g_count (st_gate s') <= g_count (st_gate (after drain_schedule (init 3)))).
Proof.
  apply (C7_no_admission_during_attempt (after drain_schedule (init 3)) 1%nat
           (Local Wait_blocked true true 0 false 0)).
  - apply (run_schedule_reachable drain_schedule (init 3)).
    + apply reachable_init.
    + vm_compute. reflexivity.
  - vm_compute. reflexivity.
  - reflexivity.
Defined.



(** C9. [_count] is the number of threads between line 34 and line 41,
    so for every interleaving of [ChatThreadcount.__enter__] and
    [__exit__], each [__exit__] after its [__enter__], it is never negative
    and it is 0 once every thread that was admitted has left. *)
Theorem C9_count_returns_to_zero (s : state) :
  reachable s ->
  g_count (st_gate s) = total counted (st_threads s)
  /\ 0 <= g_count (st_gate s)
  /\ ((forall t l, st_threads s !! t = Some l ->
         l_pc l = NotStarted \/ l_pc l = Finished) ->
      g_count (st_gate s) = 0).
Proof.
  intros Hr. pose proof (reachable_inv s Hr) as Hi.
  pose proof (inv_count s Hi) as Hc. split; [exact Hc|]. split.
  - rewrite Hc. apply total_nonneg, counted_range.
  - intros Hall. rewrite Hc. apply total_zero. intros t l Hl.
    unfold counted. destruct (Hall t l Hl) as [-> | ->]; reflexivity.
Qed.

Lemma C9_witness :
  g_count (st_gate (after three_workers (init 3))) = 0.
Proof.
  apply (C9_count_returns_to_zero (after three_workers (init 3))).
  - apply (run_schedule_reachable three_workers (init 3)).
    + apply reachable_init.
    + vm_compute. reflexivity.
  - intros t l Hl. vm_compute in Hl.
    destruct t as [|[|[|t]]]; simplify_eq; right; reflexivity.
Defined.

(** C10. Whatever the other threads do meanwhile, the operations of a
    [ChatLock.__enter__] that returns add one to
    [_blocking_candidates_count], and the operations of the [__exit__] that
    follows unlock [_lock] first and then subtract one.  For a thread that
    runs alone from a gate whose locks are free and whose [_count] is at
    most [_blocking_candidates_count + 1], [__enter__] returns, and after
    [__exit__] the counters and the locks are those before [__enter__]. *)
Theorem C10_enter_exit_round_trip :
  (forall t l h1 l1 l2 h2 l3,
     l_pc l = ChatLock_enter -> method_run t l h1 l1 ->
     last (events h1) = Some EvReturn ->
     user_step A_leave_chat_lock l1 = Some l2 ->
     method_run t l2 h2 l3 -> in_user_code (l_pc l3) = true ->
     delta g_blocking_candidates_count h1 = 1
     /\ delta g_blocking_candidates_count h2 = -1
     /\ events h2 = [EvRelease L_lock; EvAcquire L_condition; EvCandDecr;
                     EvNotifyAll; EvRelease L_condition]
     /\ (exists o, head h2 = Some o /\ g_lock (op_after o) = None)
     /\ l_pc l3 = User /\ l_in_chat_lock l3 = l_in_chat_lock l)
  /\ (forall t g l,
        l_pc l = User -> g_lock g = None -> g_entry_lock g = None ->
        g_condition g = None ->
        g_count g <= g_blocking_candidates_count g + 1 ->
        exists g1 l1 l2,
          call ChatLock_enter 12 t g l
          = ([EvAcquire L_condition; EvCandIncr; EvNotifyAll;
              EvRelease L_condition; EvAcquire L_entry_lock;
              EvTryAcquire L_lock true; EvIf true; EvAcquire L_condition;
              EvWhile false; EvRelease L_condition; EvRelease L_entry_lock;
              EvReturn], g1, l1, Returns)
          /\ g_lock g1 = Some t
          /\ g_blocking_candidates_count g1 = g_blocking_candidates_count g + 1
          /\ user_step A_leave_chat_lock l1 = Some l2
          /\ run 5 t g1 l2
             = ([EvRelease L_lock; EvAcquire L_condition; EvCandDecr;
                 EvNotifyAll; EvRelease L_condition],
                set_waiters [] g, goto User (set_unblocked true l), Returns)).
Proof.
  split.
  - intros t l h1 l1 l2 h2 l3 Hpc H1 Hlast Hleave H2 Hu3.
    destruct (method_run_last _ _ _ _ _ H1 Hlast) as (g0 & g0' & l0 & He0).
    destruct (exec_return_or_raise _ _ _ _ _ _ He0 (or_introl eq_refl))
      as (_ & Hu1 & _).
    assert (Huc : in_user_code (l_pc l1) = true) by (rewrite Hu1; reflexivity).
    pose proof (method_run_delta_candidates _ _ _ _ H1) as Hd1.
    pose proof (method_run_delta_candidates _ _ _ _ H2) as Hd2.
    destruct (ChatLock_enter_shape t l h1 l1 Hpc H1 Huc)
      as (h0 & g & g' & h1' & Hh0 & [Hok | Hbusy]).
    + destruct Hok as (_ & _ & _ & ->).
      destruct l as [p ub itc d tr bs]. cbn in Hpc. subst p.
      cbn in Hleave. injection Hleave as <-.
      pose proof (fun Hp => ChatLock_exit_shape t _ h2 l3 Hp H2 Hu3) as Hexit.
      destruct (Hexit eq_refl) as (Hev & Ho & ->). clear Hexit.
      unfold candidate in Hd1, Hd2. cbn in Hd1, Hd2.
      split; [lia|]. split; [lia|]. split; [exact Hev|]. split; [exact Ho|].
      split; reflexivity.
    + exfalso. destruct Hbusy as (-> & _ & He1 & _).
      rewrite (last_events_app h0 _ EvRaiseBusy) in Hlast; [discriminate|].
      apply last_events_cons. rewrite He1. reflexivity.
  - intros t g l Hpc Hlk Hel Hcd Hle.
    destruct g as [c b lk el cd w]. destruct l as [p ub itc d tr bs].
    cbn in Hpc, Hlk, Hel, Hcd, Hle. subst.
    assert (Hlt : (b + 1 <? c) = false) by (apply Z.ltb_ge; exact Hle).
    eexists _, _, _. split.
    { unfold call, ChatLock_enter. solo_run. rewrite Hlt. solo_run. reflexivity. }
    split; [reflexivity|]. split; [reflexivity|]. split; [reflexivity|].
    solo_run. replace (b + 1 - 1) with b by lia. reflexivity.
Qed.

Lemma C10_witness :
  let g := Gate 1 0 None None None [] in
  let g1 := Gate 1 1 (Some 3%nat) None None [] in
  let l := Local User false true 0 false 0 in
  let l2 := Local ChatLock_exit true true 0 false 0 in
  (exists l1 es,
     call ChatLock_enter 12 3%nat g l = (es, g1, l1, Returns)
     /\ last es = Some EvReturn
     /\ user_step A_leave_chat_lock l1 = Some l2
     /\ run 5 3%nat g1 l2
        = ([EvRelease L_lock; EvAcquire L_condition; EvCandDecr;
            EvNotifyAll; EvRelease L_condition],
           g, Local User true true 0 false 0, Returns))
  /\ (delta g_blocking_candidates_count
        (fst (history 12 3%nat g (goto ChatLock_enter l))) = 1
      /\ delta g_blocking_candidates_count (fst (history 5 3%nat g1 l2)) = -1).
Proof.
  cbv zeta. split.
  - destruct (proj2 C10_enter_exit_round_trip 3%nat (Gate 1 0 None None None [])
                (Local User false true 0 false 0))
      as (g1 & l1 & l2 & Hcall & Hlk & Hb & Hleave & Hrun);
      [reflexivity | reflexivity | reflexivity | reflexivity | cbn; lia |].
    vm_compute in Hcall. injection Hcall as <- <-.
    pose proof Hleave as Hleave'. vm_compute in Hleave'. injection Hleave' as <-.
    eexists _, _. split; [vm_compute; reflexivity|].
    split; [reflexivity|]. split; [exact Hleave|]. exact Hrun.
  - destruct (proj1 C10_enter_exit_round_trip 3%nat
                (goto ChatLock_enter (Local User false true 0 false 0)) _ _
                (Local ChatLock_exit true true 0 false 0) _ _
                eq_refl
                (history_run 12 3%nat (Gate 1 0 None None None [])
                   (goto ChatLock_enter (Local User false true 0 false 0)))
                eq_refl eq_refl
                (history_run 5 3%nat (Gate 1 1 (Some 3%nat) None None [])
                   (Local ChatLock_exit true true 0 false 0))
                eq_refl) as (H1 & H2 & _).
    split; [exact H1 | exact H2].
Defined.

(** * More properties of [plugin.py] *)

(** ** Threads made while others run *)

Lemma fire_app t m s s' (x : list local) :
  fire t m s = Some s' ->
  fire t m (State (st_gate s) (st_threads s ++ x))
  = Some (State (st_gate s') (st_threads s' ++ x)).
Proof.
  unfold fire. intros H.
  destruct (st_threads s !! t) as [l|] eqn:Hl; [|discriminate].
  assert (Ht : (t < length (st_threads s))%nat) by (eapply lookup_lt_Some; eauto).
  cbn [st_gate st_threads]. rewrite lookup_app_l by exact Ht. rewrite Hl.
  destruct m as [|a].
  - destruct (exec t (st_gate s) l) as [e g' l'| |]; try discriminate.
    injection H as <-. cbn [st_gate st_threads].
    rewrite insert_app_l by exact Ht. reflexivity.
  - destruct (user_step a l) as [l'|]; [|discriminate].
    injection H as <-. cbn [st_gate st_threads].
    rewrite insert_app_l by exact Ht. reflexivity.
Qed.

Lemma reachable_new_thread s :
  reachable s -> reachable (State (st_gate s) (st_threads s ++ [local_init])).
Proof.
  induction 1 as [n | s s' _ IH (t & m & Hf)].
  - change (reachable (State ChatLock_init (replicate n local_init ++ [local_init]))).
    replace (replicate n local_init ++ [local_init]) with (replicate (S n) local_init).
    + apply (reachable_init (S n)).
    + apply (replicate_S_end n local_init).
  - eapply reachable_step; [exact IH|]. exists t, m. apply fire_app. exact Hf.
Qed.

Lemma reachable_started_thread s :
  reachable s -> reachable (State (st_gate s) (st_threads s ++ [started_thread])).
Proof.
  intros Hr. eapply reachable_step; [apply reachable_new_thread, Hr|].
  exists (length (st_threads s)), (M_user A_thread_start).
  unfold fire. cbn [st_gate st_threads].
  rewrite lookup_app_r by lia. rewrite Nat.sub_diag. cbn.
  rewrite insert_app_r_alt by lia. rewrite Nat.sub_diag. reflexivity.
Qed.

Lemma plugin_reachable_state p :
  plugin_reachable p -> forall s, p = Some s -> reachable s.
Proof.
  induction 1 as [| p Hp IH | s0 s1 Hp IH Hst]; intros s Hs.
  - discriminate.
  - destruct p as [s0|]; cbn in Hs; injection Hs as <-.
    + apply reachable_started_thread, IH. reflexivity.
    + apply (reachable_started_thread (init 0)), reachable_init.
  - injection Hs as <-. eapply reachable_step; [apply IH; reflexivity | exact Hst].
Qed.

(** X1. [Plugin._start] makes the chat lock once: a later call keeps the
    lock with its counters and the threads there are, and adds one thread.
    Whenever threads are started, the plugin is in a state of the
    transition system, so [_count] is the number of threads between line
    34 and line 41 and is not negative. *)
Theorem X1_start_keeps_chat_lock (p : Plugin) (s : state) :
  plugin_reachable p -> p = Some s ->
  reachable s
  /\ g_count (st_gate s) = total counted (st_threads s)
  /\ 0 <= g_count (st_gate s)
  /\ fst (Plugin_start p)
     = Some (State (st_gate s) (st_threads s ++ [started_thread]))
  /\ snd (Plugin_start p) = length (st_threads s)
  /\ plugin_reachable (fst (Plugin_start p)).
Proof.
  intros Hp ->. pose proof (plugin_reachable_state _ Hp s eq_refl) as Hr.
  pose proof (inv_count s (reachable_inv s Hr)) as Hc.
  split; [exact Hr|]. split; [exact Hc|]. split.
  - rewrite Hc. apply total_nonneg, counted_range.
  - split; [reflexivity|]. split; [reflexivity|]. apply plugin_start, Hp.
Qed.

Lemma X1_witness :
  let p := fst (Plugin_start (fst (Plugin_start Plugin_init))) in
  p = Some (State ChatLock_init [started_thread; started_thread])
  /\ fst (Plugin_start p)
     = Some (State ChatLock_init [started_thread; started_thread; started_thread])
  /\ snd (Plugin_start p) = 2%nat.
Proof.
  cbv zeta. split; [reflexivity|].
  destruct (X1_start_keeps_chat_lock
              (fst (Plugin_start (fst (Plugin_start Plugin_init))))
              (State ChatLock_init [started_thread; started_thread]))
    as (_ & _ & _ & H1 & H2 & _).
  - apply plugin_start, plugin_start, plugin_new.
  - reflexivity.
  - split; [exact H1 | exact H2].
Defined.

(** ** The thread that sleeps at line 61 *)

(** X2. The comment of lines 44 and 45: there can only be one blocking
    thread.  A thread queued in [wait()] is at line 61, has [_lock] and
    [_entry_lock], and is the only thread queued. *)
Theorem X2_one_blocking_thread (s : state) (t : tid) :
  reachable s -> t ∈ g_waiters (st_gate s) ->
  g_waiters (st_gate s) = [t]
  /\ g_lock (st_gate s) = Some t
  /\ g_entry_lock (st_gate s) = Some t
  /\ exists l, st_threads s !! t = Some l /\ l_pc l = Wait_blocked.
Proof.
  intros Hr Ht. pose proof (reachable_inv s Hr) as Hi.
  destruct (inv_waiters s Hi t Ht) as (l & Hl & Hpc).
  destruct (inv_local s Hi t l Hl) as (_ & _ & Hw).
  split; [|split; [|split]].
  - pose proof (at_most_one_waiter s Hr) as Hlen.
    destruct (g_waiters (st_gate s)) as [|a [|b w]]; cbn in Hlen; try lia.
    + inversion Ht.
    + apply list_elem_of_singleton in Ht. subst. reflexivity.
  - apply (inv_owner s Hi L_lock t l Hl). unfold holds, holds_at.
    rewrite Hpc in *. rewrite (Hw eq_refl). apply orb_true_r.
  - apply (inv_owner s Hi L_entry_lock t l Hl). unfold holds, holds_at.
    rewrite Hpc. reflexivity.
  - exists l. auto.
Qed.

Lemma X2_witness :
  (1%nat ∈ g_waiters (st_gate (after drain_schedule (init 3))))
  /\ g_waiters (st_gate (after drain_schedule (init 3))) = [1%nat]
  /\ g_lock (st_gate (after drain_schedule (init 3))) = Some 1%nat.
Proof.
  assert (H : 1%nat ∈ g_waiters (st_gate (after drain_schedule (init 3)))).
  { vm_compute. apply list_elem_of_singleton. reflexivity. }
  split; [exact H|].
  destruct (X2_one_blocking_thread (after drain_schedule (init 3)) 1%nat)
    as (H1 & H2 & _).
  - apply (run_schedule_reachable drain_schedule (init 3)).
    + apply reachable_init.
    + vm_compute. reflexivity.
  - exact H.
  - split; [exact H1 | exact H2].
Defined.

(** A change of a counter is made with the condition's lock. *)
Lemma exec_wake t g l e g' l' :
  exec t g l = Ok e g' l' ->
  (* the counters stay, or the thread will notify, or the test stays true *)
  (g_count g' = g_count g
   /\ g_blocking_candidates_count g' = g_blocking_candidates_count g
   /\ (about_to_notify (l_pc l') = true -> about_to_notify (l_pc l) = true))
  \/ (holds L_condition l = true /\ about_to_notify (l_pc l) = false
      /\ (about_to_notify (l_pc l') = true
          \/ (g_blocking_candidates_count g' <= g_blocking_candidates_count g
              /\ g_count g <= g_count g'))).
Proof.
  intros He.
  enough ((g_count g' = g_count g
           /\ g_blocking_candidates_count g' = g_blocking_candidates_count g
           /\ (about_to_notify (l_pc l') = true -> about_to_notify (l_pc l) = true))
          \/ (holds L_condition l = true /\ about_to_notify (l_pc l) = false
              /\ (about_to_notify (l_pc l') = true
                  \/ (g_blocking_candidates_count g'
                      = g_blocking_candidates_count g - 1
                      /\ g_count g' = g_count g)
                  \/ (g_blocking_candidates_count g'
                      = g_blocking_candidates_count g
                      /\ g_count g' = g_count g + 1)))) as H.
  { destruct H as [H | (H1 & H2 & [H3 | [[H3 H4] | [H3 H4]]])]; [left; exact H | right ..].
    - split; [exact H1|]. split; [exact H2|]. left. exact H3.
    - split; [exact H1|]. split; [exact H2|]. right. lia.
    - split; [exact H1|]. split; [exact H2|]. right. lia. }
  destruct g as [c b lk el cd w].
  break_local l; cbn in He; unfold_ops; cbn in He.
  all: repeat (case_match; cbn in He; try discriminate); simplify_eq.
  all: first
    [ left; split; [reflexivity|]; split; [reflexivity|]; cbn; congruence
    | right; split; [reflexivity|]; split; [reflexivity|];
      first [ left; reflexivity
            | right; left; split; reflexivity
            | right; right; split; reflexivity ] ].
Qed.

Lemma exec_about_to_notify t g l e g' l' :
  exec t g l = Ok e g' l' -> about_to_notify (l_pc l) = true ->
  g_waiters g' = tail (g_waiters g) \/ g_waiters g' = [].
Proof.
  intros He Hn. destruct g as [c b lk el cd w].
  break_local l; try discriminate Hn; cbn in He; unfold_ops; cbn in He.
  all: repeat (case_match; cbn in He; try discriminate); simplify_eq.
  all: unfold notify, notify_all; cbn; auto.
Qed.

Lemma exec_to_wait_blocked t g l e g' l' :
  exec t g l = Ok e g' l' -> l_pc l = Wait_test -> l_pc l' = Wait_blocked ->
  g_blocking_candidates_count g' < g_count g'.
Proof.
  intros He Hpc Hpc'. destruct g as [c b lk el cd w].
  destruct l as [p ub itc d tr bs]. cbn in Hpc. subst p.
  cbn in He; unfold_ops; cbn in He.
  repeat (case_match; cbn in He; try discriminate); simplify_eq;
    try discriminate Hpc'.
  match goal with Hlt : (_ <? _) = true |- _ => apply Z.ltb_lt in Hlt end.
  assumption.
Qed.

Lemma about_to_notify_holds l :
  about_to_notify (l_pc l) = true -> holds L_condition l = true.
Proof. destruct l as [p ? ? ? ? ?]; destruct p; cbn; congruence. Qed.

Lemma about_to_notify_not_user l :
  in_user_code (l_pc l) = true -> about_to_notify (l_pc l) = false.
Proof. destruct l as [p ? ? ? ? ?]; destruct p; cbn; congruence. Qed.

Lemma no_lost_wakeup s :
  reachable s ->
  forall t, t ∈ g_waiters (st_gate s) ->
  g_blocking_candidates_count (st_gate s) < g_count (st_gate s)
  \/ exists u lu, st_threads s !! u = Some lu /\ about_to_notify (l_pc lu) = true.
Proof.
  induction 1 as [n | s s' Hr IH (x & m & Hf)]; intros t Ht.
  - inversion Ht.
  - pose proof (reachable_inv s Hr) as Hi.
    pose proof (at_most_one_waiter s Hr) as Hone.
    unfold fire in Hf.
    destruct (st_threads s !! x) as [l|] eqn:Hl; [|discriminate].
    assert (Hx : (x < length (st_threads s))%nat) by (eapply lookup_lt_Some; eauto).
    destruct m as [|a].
    + destruct (exec x (st_gate s) l) as [e g' l'| |] eqn:He; try discriminate.
      injection Hf as <-. cbn [st_gate st_threads] in *.
      destruct (about_to_notify (l_pc l)) eqn:Hn.
      { (* the thread notifies: nobody stays queued *)
        exfalso.
        assert (Hnil : g_waiters g' = []).
        { destruct (exec_about_to_notify _ _ _ _ _ _ He Hn) as [Hw | Hw];
            [|exact Hw].
          rewrite Hw. destruct (g_waiters (st_gate s)) as [|a0 [|b0 w]];
            cbn in *; try reflexivity; lia. }
        rewrite Hnil in Ht. inversion Ht. }
      destruct (exec_waiters _ _ _ _ _ _ He) as [_ Hcases].
      destruct Hcases as [[Hw _] | [(Hw & Hp & Hp') | [(Hw & _ & _) | [Hw _]]]].
      * rewrite Hw in Ht. specialize (IH t Ht).
        destruct (exec_wake _ _ _ _ _ _ He)
          as [(Hc & Hb & _) | (Hh & _ & [Hn' | [Hb Hc]])].
        -- destruct IH as [IH | (u & lu & Hlu & Hnu)].
           ++ left. rewrite Hc, Hb. exact IH.
           ++ right. exists u, lu. split; [|exact Hnu].
              rewrite list_lookup_insert_ne; [exact Hlu|].
              intros ->. rewrite Hl in Hlu. injection Hlu as <-.
              rewrite Hn in Hnu. discriminate.
        -- right. exists x, l'. split; [|exact Hn'].
           apply list_lookup_insert_eq. exact Hx.
        -- destruct IH as [IH | (u & lu & Hlu & Hnu)].
           ++ left. lia.
           ++ exfalso. pose proof (about_to_notify_holds _ Hnu) as Hhu.
              pose proof (holder_unique s _ _ _ _ _ Hi Hl Hlu Hh Hhu) as <-.
              rewrite Hl in Hlu. injection Hlu as <-.
              rewrite Hn in Hnu. discriminate.
      * left. eapply exec_to_wait_blocked; eauto.
      * exfalso. rewrite Hw in Ht.
        destruct (g_waiters (st_gate s)) as [|a0 [|b0 w]]; cbn in *;
          try (inversion Ht; fail); lia.
      * rewrite Hw in Ht. inversion Ht.
    + destruct (user_step a l) as [l'|] eqn:Hu; [|discriminate].
      injection Hf as <-. cbn [st_gate st_threads] in *.
      destruct (IH t Ht) as [IH' | (u & lu & Hlu & Hnu)]; [left; exact IH'|].
      right. exists u, lu. split; [|exact Hnu].
      rewrite list_lookup_insert_ne; [exact Hlu|].
      intros ->. rewrite Hl in Hlu. injection Hlu as <-.
      destruct (user_step_pc _ _ _ Hu) as [Hpc _].
      apply about_to_notify_not_user in Hpc. rewrite Hpc in Hnu. discriminate.
Qed.

(** X3. No wake-up is lost.  While a thread is queued in [wait()],
    [_count > _blocking_candidates_count], or a thread that has changed a
    counter has the condition's lock and is about to call [notify()] or
    [notify_all()]; so whenever the condition's lock is free, a queued
    thread still has to wait. *)
Theorem X3_no_lost_wakeup (s : state) (t : tid) :
  reachable s -> t ∈ g_waiters (st_gate s) ->
  (g_blocking_candidates_count (st_gate s) < g_count (st_gate s)
   \/ exists u lu, st_threads s !! u = Some lu
                   /\ about_to_notify (l_pc lu) = true
                   /\ g_condition (st_gate s) = Some u)
  /\ (g_condition (st_gate s) = None ->
      g_blocking_candidates_count (st_gate s) < g_count (st_gate s)).
Proof.
  intros Hr Ht. pose proof (reachable_inv s Hr) as Hi.
  assert (H : g_blocking_candidates_count (st_gate s) < g_count (st_gate s)
              \/ exists u lu, st_threads s !! u = Some lu
                   /\ about_to_notify (l_pc lu) = true
                   /\ g_condition (st_gate s) = Some u).
  { destruct (no_lost_wakeup s Hr t Ht) as [H | (u & lu & Hlu & Hn)];
      [left; exact H|].
    right. exists u, lu. split; [exact Hlu|]. split; [exact Hn|].
    apply (inv_owner s Hi L_condition u lu Hlu), about_to_notify_holds, Hn. }
  split; [exact H|]. intros Hfree.
  destruct H as [H | (u & lu & _ & _ & Hc)]; [exact H | congruence].
Qed.

Lemma X3_witness :
  (1%nat ∈ g_waiters (st_gate (after drain_schedule (init 3))))
  /\ g_condition (st_gate (after drain_schedule (init 3))) = None
  /\ g_blocking_candidates_count (st_gate (after drain_schedule (init 3)))
     < g_count (st_gate (after drain_schedule (init 3))).
Proof.
  assert (H : 1%nat ∈ g_waiters (st_gate (after drain_schedule (init 3)))).
  { vm_compute. apply list_elem_of_singleton. reflexivity. }
  split; [exact H|]. split; [vm_compute; reflexivity|].
  apply (X3_no_lost_wakeup (after drain_schedule (init 3)) 1%nat).
  - apply (run_schedule_reachable drain_schedule (init 3)).
    + apply reachable_init.
    + vm_compute. reflexivity.
  - exact H.
  - vm_compute. reflexivity.
Defined.

(** ** One thread at a time in [with chat_lock:] *)

(** X4. The comment of line 87: only one blocking thread at a time.  While
    a thread is in the body of a [with chat_lock:], it has [_lock], no
    other thread is in such a body, and the [acquire(False)] of any thread
    gives [False], so that its [__enter__] raises. *)
Theorem X4_one_thread_in_chat_lock (s : state) (t u : tid) (lt lu : local) :
  reachable s ->
  st_threads s !! t = Some lt -> (0 < l_in_chat_lock lt)%nat ->
  st_threads s !! u = Some lu ->
  g_lock (st_gate s) = Some t
  /\ ((0 < l_in_chat_lock lu)%nat -> u = t)
  /\ (l_pc lu = ClEnter_try ->
      exec u (st_gate s) lu
      = Ok (EvTryAcquire L_lock false) (st_gate s)
           (goto ClEnter_if_unblocked (set_unblocked false lu))).
Proof.
  intros Hr Hlt Hin Hlu. pose proof (reachable_inv s Hr) as Hi.
  assert (Hh : forall l, (0 < l_in_chat_lock l)%nat -> holds L_lock l = true).
  { intros l Hl. unfold holds. apply Nat.ltb_lt in Hl. rewrite Hl. reflexivity. }
  assert (Hown : g_lock (st_gate s) = Some t).
  { apply (inv_owner s Hi L_lock t lt Hlt), Hh, Hin. }
  split; [exact Hown|]. split.
  - intros Hu. eapply (holder_unique s L_lock); eauto.
  - intros Hpc. unfold exec. rewrite Hpc, Hown. reflexivity.
Qed.

Lemma X4_witness :
  let s := after contended_schedule (init 2) in
  st_threads s !! 0%nat = Some (Local User true true 1 false 0)
  /\ g_lock (st_gate s) = Some 0%nat
  /\ exec 1 (st_gate (after (contended_schedule ++ execs 1 1) (init 2)))
          (Local ClEnter_try false true 0 false 0)
     = Ok (EvTryAcquire L_lock false)
          (st_gate (after (contended_schedule ++ execs 1 1) (init 2)))
          (Local ClEnter_if_unblocked false true 0 false 0).
Proof.
  cbv zeta. split; [vm_compute; reflexivity|]. split.
  - apply (X4_one_thread_in_chat_lock (after contended_schedule (init 2))
             0%nat 0%nat (Local User true true 1 false 0)
             (Local User true true 1 false 0)).
    + apply (run_schedule_reachable contended_schedule (init 2)).
      * apply reachable_init.
      * vm_compute. reflexivity.
    + vm_compute. reflexivity.
    + cbn. lia.
    + vm_compute. reflexivity.
  - apply (X4_one_thread_in_chat_lock
             (after (contended_schedule ++ execs 1 1) (init 2))
             0%nat 1%nat (Local User true true 1 false 0)
             (Local ClEnter_try false true 0 false 0)).
    + apply (run_schedule_reachable (contended_schedule ++ execs 1 1) (init 2)).
      * apply reachable_init.
      * vm_compute. reflexivity.
    + vm_compute. reflexivity.
    + cbn. lia.
    + vm_compute. reflexivity.
    + reflexivity.
Defined.

(** ** No message starts while [_lock] is locked *)

(** [_lock] is taken at lines 30 and 88 only, with [_entry_lock]. *)
Lemma exec_lock_taken t g l e g' l' :
  exec t g l = Ok e g' l' ->
  g_lock g' = g_lock g \/ g_lock g' = None \/ holds L_entry_lock l = true.
Proof.
  intros He. destruct g as [c b lk el cd w].
  break_local l; cbn in He; unfold_ops; cbn in He.
  all: repeat (case_match; cbn in He; try discriminate); simplify_eq.
  all: first [left; reflexivity | right; left; reflexivity
             | right; right; reflexivity].
Qed.

Lemma exec_after_unblocked t g l e g' l' :
  exec t g l = Ok e g' l' -> after_unblocked (l_pc l') = true ->
  (after_unblocked (l_pc l) = true /\ g_lock g' = g_lock g)
  \/ g_lock g' = None.
Proof.
  intros He Ha. destruct g as [c b lk el cd w].
  break_local l; cbn in He; unfold_ops; cbn in He.
  all: repeat (case_match; cbn in He; try discriminate); simplify_eq.
  all: cbn in Ha; try discriminate Ha.
  all: first [left; split; reflexivity | right; reflexivity].
Qed.

Lemma after_unblocked_holds l :
  after_unblocked (l_pc l) = true -> holds L_entry_lock l = true.
Proof. destruct l as [p ? ? ? ? ?]; destruct p; cbn; congruence. Qed.

Lemma user_step_not_after_unblocked a l l' :
  user_step a l = Some l' -> after_unblocked (l_pc l') = false.
Proof.
  intros Hu. destruct a; break_local l; cbn in *;
    repeat (case_match; cbn in * ); simplify_eq; reflexivity.
Qed.

Lemma unlocked_after_check s :
  reachable s ->
  forall u lu, st_threads s !! u = Some lu ->
  after_unblocked (l_pc lu) = true -> g_lock (st_gate s) = None.
Proof.
  induction 1 as [n | s s' Hr IH (x & m & Hf)]; intros u lu Hlu Ha.
  - apply lookup_replicate in Hlu as [-> _]. discriminate.
  - pose proof (reachable_inv s Hr) as Hi. unfold fire in Hf.
    destruct (st_threads s !! x) as [l|] eqn:Hl; [|discriminate].
    assert (Hx : (x < length (st_threads s))%nat) by (eapply lookup_lt_Some; eauto).
    destruct m as [|a].
    + destruct (exec x (st_gate s) l) as [e g' l'| |] eqn:He; try discriminate.
      injection Hf as <-. cbn [st_gate st_threads] in *.
      destruct (decide (u = x)) as [->|Hne].
      * rewrite list_lookup_insert_eq in Hlu by exact Hx. injection Hlu as <-.
        destruct (exec_after_unblocked _ _ _ _ _ _ He Ha) as [[Ha0 Hg] | Hg];
          [|exact Hg].
        rewrite Hg. eapply IH; eauto.
      * rewrite list_lookup_insert_ne in Hlu by congruence.
        specialize (IH u lu Hlu Ha).
        destruct (exec_lock_taken _ _ _ _ _ _ He) as [Hg | [Hg | Hh]].
        -- rewrite Hg. exact IH.
        -- exact Hg.
        -- exfalso. apply Hne. symmetry.
           eapply (holder_unique s L_entry_lock); eauto.
           apply after_unblocked_holds, Ha.
    + destruct (user_step a l) as [l'|] eqn:Hu; [|discriminate].
      injection Hf as <-. cbn [st_gate st_threads] in *.
      destruct (decide (u = x)) as [->|Hne].
      * rewrite list_lookup_insert_eq in Hlu by exact Hx. injection Hlu as <-.
        apply user_step_not_after_unblocked in Hu. rewrite Hu in Ha. discriminate.
      * rewrite list_lookup_insert_ne in Hlu by congruence. eapply IH; eauto.
Qed.

(** X5. The comments of lines 25 to 29 and of line 86: no message starts
    processing while a blocking thread has [_lock].  While [_lock] is
    locked, no thread is past [wait_until_unblocked] in
    [ChatThreadcount.__enter__], a thread at line 30 cannot go on, and
    no operation of any thread makes [_count] larger. *)
Theorem X5_no_start_while_locked (s : state) (o : tid) :
  reachable s -> g_lock (st_gate s) = Some o ->
  (forall u lu, st_threads s !! u = Some lu -> after_unblocked (l_pc lu) = false)
  /\ (forall u lu, st_threads s !! u = Some lu ->
        l_pc lu = wait_until_unblocked -> exec u (st_gate s) lu = Blocked)
  /\ (forall t m s', fire t m s = Some s' ->
        g_count (st_gate s') <= g_count (st_gate s)).
Proof.
  intros Hr Hlk.
  assert (Hno : forall u lu, st_threads s !! u = Some lu ->
                  after_unblocked (l_pc lu) = false).
  { intros u lu Hlu. destruct (after_unblocked (l_pc lu)) eqn:Ha; [|reflexivity].
    pose proof (unlocked_after_check s Hr u lu Hlu Ha). congruence. }
  split; [exact Hno|]. split.
  - intros u lu Hlu Hpc. unfold exec, do_acquire. rewrite Hpc. cbn.
    rewrite Hlk. reflexivity.
  - intros t m s' Hf. unfold fire in Hf.
    destruct (st_threads s !! t) as [l|] eqn:Hl; [|discriminate].
    destruct m as [|a].
    + destruct (exec t (st_gate s) l) as [ev g' l'| |] eqn:He; try discriminate.
      injection Hf as <-. cbn.
      destruct (exec_count_le _ _ _ _ _ _ He) as [H|H]; [exact H|].
      specialize (Hno t l Hl). rewrite H in Hno. discriminate.
    + destruct (user_step a l); [|discriminate]. injection Hf as <-. cbn. lia.
Qed.

(** Thread 0 is in [with chat_lock:]; thread 2, started afterwards, is at
    line 30. *)
Lemma X5_witness :
  let sch := contended_schedule ++ [(2, M_user A_thread_start)]%nat ++ execs 2 1 in
  g_lock (st_gate (after sch (init 3))) = Some 0%nat
  /\ st_threads (after sch (init 3)) !! 2%nat
     = Some (Local wait_until_unblocked false false 0 false 0)
  /\ exec 2 (st_gate (after sch (init 3)))
          (Local wait_until_unblocked false false 0 false 0) = Blocked.
Proof.
  cbv zeta. split; [vm_compute; reflexivity|]. split; [vm_compute; reflexivity|].
  destruct (X5_no_start_while_locked
              (after (contended_schedule ++ [(2, M_user A_thread_start)]%nat
                      ++ execs 2 1) (init 3)) 0%nat) as (_ & Hblocked & _).
  - apply (run_schedule_reachable
             (contended_schedule ++ [(2, M_user A_thread_start)]%nat ++ execs 2 1)
             (init 3)).
    + apply reachable_init.
    + vm_compute. reflexivity.
  - vm_compute. reflexivity.
  - apply (Hblocked 2%nat); [vm_compute; reflexivity | reflexivity].
Defined.

(** ** What the end of the wait means *)

Lemma total_le (f f' : local -> Z) (ths : list local) :
  (forall t l, ths !! t = Some l -> f l <= f' l) -> total f ths <= total f' ths.
Proof.
  induction ths as [|x ths IH]; intros H; [reflexivity|].
  change (f x + total f ths <= f' x + total f' ths).
  pose proof (H 0%nat x eq_refl).
  assert (total f ths <= total f' ths) by (apply IH; intros t l Hl; exact (H (S t) l Hl)).
  lia.
Qed.

Lemma total_le_eq (f f' : local -> Z) (ths : list local) :
  (forall t l, ths !! t = Some l -> f l <= f' l) ->
  total f' ths <= total f ths ->
  forall t l, ths !! t = Some l -> f l = f' l.
Proof.
  induction ths as [|x ths IH]; intros H Hsum t l Hl; [discriminate|].
  change (f' x + total f' ths <= f x + total f ths) in Hsum.
  pose proof (H 0%nat x eq_refl) as Hx.
  assert (Hrest : forall t l, ths !! t = Some l -> f l <= f' l)
    by (intros t' l' Hl'; exact (H (S t') l' Hl')).
  pose proof (total_le f f' ths Hrest) as Hle.
  destruct t as [|t]; cbn in Hl.
  - injection Hl as <-. lia.
  - apply (IH Hrest ltac:(lia) t l Hl).
Qed.

(** X6. The comment of lines 90 to 96: when the wait ends, all previous
    messages have finished processing and only candidates are still
    allowed.  If no attempt has raised so far and every thread in an
    attempt runs [_thread_start], then at the end of the wait every
    thread that is counted in [_count] is between line 50 and line 55 of
    the methods of [ChatLock], not in its target. *)
Theorem X6_only_candidates_after_wait (s : state) (e : tid) (le : local) :
  reachable s ->
  st_threads s !! e = Some le -> l_pc le = Wait_cond_release ->
  (forall t l, st_threads s !! t = Some l ->
     l_busy_seen l = 0%nat /\ candidate_at l <= counted l) ->
  g_count (st_gate s) = g_blocking_candidates_count (st_gate s)
  /\ forall u lu, st_threads s !! u = Some lu -> counted lu = 1 ->
       candidate_at lu = 1 /\ in_user_code (l_pc lu) = false.
Proof.
  intros Hr Hle Hpc Hall. pose proof (reachable_inv s Hr) as Hi.
  pose proof (wait_return_drained s Hr e le Hle Hpc) as Hdrain.
  assert (Hhe : holds L_lock le = true).
  { destruct (inv_local s Hi e le Hle) as (_ & _ & Hw).
    unfold holds, holds_at. rewrite Hpc in *. rewrite (Hw eq_refl).
    apply orb_true_r. }
  assert (Hcand : forall t l, st_threads s !! t = Some l ->
                    candidate l = candidate_at l).
  { intros t l Hl. destruct (Hall t l Hl) as [Hb _].
    assert (Hd : l_in_chat_lock l = 0%nat).
    { destruct (l_in_chat_lock l) as [|d] eqn:Hd; [reflexivity|]. exfalso.
      assert (Hh : holds L_lock l = true) by (unfold holds; rewrite Hd; reflexivity).
      pose proof (holder_unique s _ _ _ _ _ Hi Hle Hl Hhe Hh) as <-.
      rewrite Hle in Hl. injection Hl as <-.
      destruct (inv_local s Hi e le Hle) as (_ & H0 & _).
      unfold holds_at in H0. rewrite Hpc in H0.
      destruct (inv_local s Hi e le Hle) as (_ & _ & Hw).
      rewrite Hpc in Hw. rewrite (Hw eq_refl) in H0.
      specialize (H0 eq_refl). congruence. }
    unfold candidate. rewrite Hb, Hd. cbn. lia. }
  assert (Hle' : forall t l, st_threads s !! t = Some l ->
                   candidate l <= counted l).
  { intros t l Hl. rewrite (Hcand t l Hl). apply (Hall t l Hl). }
  assert (Hsum : total counted (st_threads s) <= total candidate (st_threads s)).
  { rewrite <- (inv_count s Hi), <- (inv_candidates s Hi). exact Hdrain. }
  pose proof (total_le_eq candidate counted (st_threads s) Hle' Hsum) as Heq.
  split.
  - rewrite (inv_count s Hi), (inv_candidates s Hi).
    symmetry. apply total_ext. exact Heq.
  - intros u lu Hlu Hc. pose proof (Heq u lu Hlu) as H1.
    rewrite (Hcand u lu Hlu), Hc in H1. split; [exact H1|].
    destruct lu as [p ? ? ? ? ?]; destruct p; cbn in *; congruence.
Qed.

(** Threads 0 and 1 are admitted; thread 1 has called
    [add_blocking_candidate] when thread 0 ends its wait. *)
Lemma X6_witness :
  let s := after (firstn 31 contended_schedule) (init 2) in
  st_threads s
  = [Local Wait_cond_release true true 0 false 0;
     Local ClEnter_entry_acquire false true 0 false 0]
  /\ g_count (st_gate s) = g_blocking_candidates_count (st_gate s)
  /\ forall u lu, st_threads s !! u = Some lu -> counted lu = 1 ->
       candidate_at lu = 1 /\ in_user_code (l_pc lu) = false.
Proof.
  cbv zeta. split; [vm_compute; reflexivity|].
  apply (X6_only_candidates_after_wait
           (after (firstn 31 contended_schedule) (init 2)) 0%nat
           (Local Wait_cond_release true true 0 false 0)).
  - apply (run_schedule_reachable (firstn 31 contended_schedule) (init 2)).
    + apply reachable_init.
    + vm_compute. reflexivity.
  - vm_compute. reflexivity.
  - reflexivity.
  - intros t l Hl. vm_compute in Hl.
    destruct t as [|[|t]]; simplify_eq; split; cbn; (reflexivity || lia).
Defined.

(** * Properties of [signalbot.py] *)

(** ** Dictionaries and lists *)
Section DictFacts.
Context {K V : Type} `{EqDecision K}.
Implicit Types (d : list (K * V)) (k : K) (v : V).

Lemma dict_get_set_eq k v d : dict_get k (dict_set k v d) = Some v.
Proof.
  induction d as [|[k' v'] d IH]; cbn.
  - rewrite decide_True by reflexivity. reflexivity.
  - destruct (decide (k = k')) as [->|Hne]; cbn.
    + rewrite decide_True by reflexivity. reflexivity.
    + rewrite decide_False by exact Hne. exact IH.
Qed.

Lemma dict_get_set_ne k k' v d :
  k <> k' -> dict_get k' (dict_set k v d) = dict_get k' d.
Proof.
  intros Hne. induction d as [|[k0 v0] d IH]; cbn.
  - rewrite decide_False by congruence. reflexivity.
  - destruct (decide (k = k0)) as [->|Hne0]; cbn.
    + rewrite !decide_False by congruence. reflexivity.
    + destruct (decide (k' = k0)); [reflexivity | exact IH].
Qed.

Lemma dict_get_del_ne k k' d :
  k <> k' -> dict_get k' (dict_del k d) = dict_get k' d.
Proof.
  intros Hne. induction d as [|[k0 v0] d IH]; cbn; [reflexivity|].
  destruct (decide (k = k0)) as [->|Hne0]; cbn.
  - rewrite decide_False by congruence. reflexivity.
  - destruct (decide (k' = k0)); [reflexivity | exact IH].
Qed.

Lemma dict_get_None k d : dict_get k d = None <-> k ∉ dict_keys d.
Proof.
  unfold dict_keys. induction d as [|[k0 v0] d IH]; cbn.
  - split; [intros _ H'; inversion H' | reflexivity].
  - rewrite not_elem_of_cons. destruct (decide (k = k0)) as [->|Hne].
    + split; [discriminate | intros [? _]; congruence].
    + rewrite IH. tauto.
Qed.

Lemma dict_in_true k d : dict_in k d = true <-> k ∈ dict_keys d.
Proof.
  unfold dict_in. pose proof (dict_get_None k d) as H0.
  destruct (dict_get k d) as [v|].
  - split; [intros _|reflexivity].
    destruct (decide (k ∈ dict_keys d)) as [Hin|Hnot]; [exact Hin|].
    apply H0 in Hnot. discriminate.
  - split; [discriminate|]. intros Hin. exfalso. apply (proj1 H0 eq_refl), Hin.
Qed.

Lemma dict_in_false k d : dict_in k d = false <-> dict_get k d = None.
Proof. unfold dict_in. destruct (dict_get k d); split; congruence. Qed.

Lemma dict_get_del_eq k d : NoDup (dict_keys d) -> dict_get k (dict_del k d) = None.
Proof.
  unfold dict_keys. induction d as [|[k0 v0] d IH]; cbn; intros Hnd; [reflexivity|].
  apply NoDup_cons in Hnd as [Hnot Hnd].
  destruct (decide (k = k0)) as [->|Hne]; cbn.
  - apply dict_get_None. exact Hnot.
  - rewrite decide_False by exact Hne. apply IH, Hnd.
Qed.

Lemma dict_keys_set k v d :
  dict_keys (dict_set k v d)
  = if dict_in k d then dict_keys d else dict_keys d ++ [k].
Proof.
  unfold dict_keys, dict_in. induction d as [|[k0 v0] d IH]; cbn; [reflexivity|].
  destruct (decide (k = k0)) as [->|Hne]; cbn; [reflexivity|].
  rewrite IH. destruct (dict_get k d); reflexivity.
Qed.

Lemma dict_keys_set_NoDup k v d :
  NoDup (dict_keys d) -> NoDup (dict_keys (dict_set k v d)).
Proof.
  intros Hnd. rewrite dict_keys_set. destruct (dict_in k d) eqn:Hin; [exact Hnd|].
  apply NoDup_app. split; [exact Hnd|]. split; [|apply NoDup_singleton].
  intros x Hx Hx'. apply list_elem_of_singleton in Hx'. subst x.
  apply dict_in_true in Hx. congruence.
Qed.

Lemma dict_keys_del_subseteq k d x : x ∈ dict_keys (dict_del k d) -> x ∈ dict_keys d.
Proof.
  unfold dict_keys. induction d as [|[k0 v0] d IH]; cbn; [auto|].
  destruct (decide (k = k0)) as [->|Hne]; cbn.
  - intros Hx. apply elem_of_cons. auto.
  - rewrite !elem_of_cons. intros [-> | Hx]; auto.
Qed.

Lemma dict_keys_del_NoDup k d :
  NoDup (dict_keys d) -> NoDup (dict_keys (dict_del k d)).
Proof.
  unfold dict_keys. induction d as [|[k0 v0] d IH]; cbn; intros Hnd; [constructor|].
  apply NoDup_cons in Hnd as [Hnot Hnd].
  destruct (decide (k = k0)) as [->|Hne]; cbn; [exact Hnd|].
  apply NoDup_cons. split; [|apply IH, Hnd].
  intros Hx. apply Hnot. apply (dict_keys_del_subseteq k d k0 Hx).
Qed.

(** Putting a new key in and deleting it gives the dictionary back. *)
Lemma dict_del_set_new k v d : dict_get k d = None -> dict_del k (dict_set k v d) = d.
Proof.
  induction d as [|[k0 v0] d IH]; cbn; intros Hg.
  - rewrite decide_True by reflexivity. reflexivity.
  - destruct (decide (k = k0)) as [->|Hne]; [discriminate|]. cbn.
    rewrite decide_False by exact Hne. rewrite IH by exact Hg. reflexivity.
Qed.

(** Deleting a key and putting it back at the end of a dictionary that
    ended with it gives the dictionary back. *)
Lemma dict_set_set k v v' d : dict_set k v (dict_set k v' d) = dict_set k v d.
Proof.
  induction d as [|[k0 v0] d IH]; cbn.
  - rewrite decide_True by reflexivity. reflexivity.
  - destruct (decide (k = k0)) as [->|Hne]; cbn.
    + rewrite decide_True by reflexivity. reflexivity.
    + rewrite decide_False by exact Hne. rewrite IH. reflexivity.
Qed.

Lemma dict_set_same k v d : dict_get k d = Some v -> dict_set k v d = d.
Proof.
  induction d as [|[k0 v0] d IH]; cbn; [discriminate|].
  destruct (decide (k = k0)) as [->|Hne]; intros Hg.
  - injection Hg as ->. reflexivity.
  - rewrite IH by exact Hg. reflexivity.
Qed.
End DictFacts.

Section ListFacts.
Context {A : Type} `{EqDecision A}.
Implicit Types (x y : A) (l : list A).

Lemma list_in_true x l : list_in x l = true <-> x ∈ l.
Proof. unfold list_in. apply bool_decide_eq_true. Qed.

Lemma list_in_false x l : list_in x l = false <-> x ∉ l.
Proof. unfold list_in. apply bool_decide_eq_false. Qed.

Lemma list_remove_elem x y l :
  NoDup l -> (y ∈ list_remove x l <-> y <> x /\ y ∈ l).
Proof.
  induction l as [|z l IH]; cbn; intros Hnd.
  - split; [intros H'; inversion H' | intros [_ H']; inversion H'].
  - apply NoDup_cons in Hnd as [Hnot Hnd].
    destruct (decide (x = z)) as [->|Hne].
    + rewrite elem_of_cons. split.
      * intros Hy. split; [|auto]. intros ->. contradiction.
      * intros [Hyz [Hy | Hy]]; [congruence | exact Hy].
    + rewrite !elem_of_cons, (IH Hnd). split.
      * intros [-> | [H1 H2]]; [split; [congruence | auto] | auto].
      * intros [H1 [-> | H2]]; auto.
Qed.

Lemma list_remove_NoDup x l : NoDup l -> NoDup (list_remove x l).
Proof.
  induction l as [|z l IH]; cbn; intros Hnd; [constructor|].
  pose proof Hnd as Hnd0. apply NoDup_cons in Hnd as [Hnot Hnd].
  destruct (decide (x = z)) as [->|Hne]; [exact Hnd|].
  apply NoDup_cons. split; [|apply IH, Hnd].
  intros Hz. apply (list_remove_elem x z l Hnd) in Hz as [_ Hz]. contradiction.
Qed.

(** [l.append(x)] and then [l.remove(x)], for an [x] that was not in [l]. *)
Lemma list_remove_app_new x l : x ∉ l -> list_remove x (l ++ [x]) = l.
Proof.
  induction l as [|z l IH]; cbn; intros Hnot.
  - rewrite decide_True by reflexivity. reflexivity.
  - apply not_elem_of_cons in Hnot as [Hne Hnot].
    rewrite decide_False by exact Hne. rewrite IH by exact Hnot. reflexivity.
Qed.
End ListFacts.

(** ** The defaults of the configuration *)

(** X7. [Signalbot.__init__], lines 84 to 92: after the defaults are
    filled in, a key of the configuration file has the value of the file,
    and a key that the file does not have has its default, if there is
    one; so every key with a default is there. *)
Theorem X7_file_wins_over_defaults {K V : Type} `{EqDecision K}
    (defaults config : list (K * V)) (k : K) :
  dict_get k (fill_defaults defaults config)
  = match dict_get k config with
    | Some v => Some v
    | None => dict_get k defaults
    end.
Proof.
  unfold fill_defaults. revert config.
  induction defaults as [|[k0 v0] ds IH]; intros config; cbn [foldl].
  - destruct (dict_get k config); reflexivity.
  - rewrite IH. cbn [fst snd dict_get].
    destruct (decide (k = k0)) as [->|Hne].
    + rewrite dict_get_set_eq. destruct (dict_get k0 config); reflexivity.
    + rewrite dict_get_set_ne by congruence. reflexivity.
Qed.

(** ** Running the bot *)
Section BotFacts.
Context {router : Type}.
Implicit Types (b : Signalbot router) (c : Chat router).

Lemma for_each_emit {A : Type} (l : list A) (f : A -> effect router) b :
  for_each l (fun x => emit (f x)) b = Ret tt (with_log (map f l) b).
Proof.
  revert b. induction l as [|x l IH]; intros b; cbn [for_each map].
  - unfold ret, with_log. rewrite app_nil_r. destruct b; reflexivity.
  - unfold bind at 1. unfold emit at 1. rewrite IH. unfold with_log. cbn.
    rewrite <- app_assoc. reflexivity.
Qed.

Lemma deref_ok a c b : b_heap b !! a = Some c -> deref a b = Ret c b.
Proof. intros H. unfold deref, bind, get. rewrite H. reflexivity. Qed.

Lemma send_message_ok text att a c sender group_id b :
  b_heap b !! a = Some c ->
  c_id c = get_chat_id_from_sender_and_group_id sender group_id ->
  send_message text att a b = Ret tt (with_log [sent_to sender group_id text att] b).
Proof.
  intros Hc Hid. unfold send_message, bind. rewrite (deref_ok a c b Hc), Hid.
  destruct group_id as [|x g]; reflexivity.
Qed.

(** X8. An answer goes where the message came from.  For a chat whose id
    was made from the sender and the group id of a message, [reply],
    [error] and [success] call [sendGroupMessage] with that group id when
    the message has one, and [sendMessage] with the sender otherwise;
    [error] and [success] add their mark to the text.  Nothing else of the
    bot changes. *)
Theorem X8_answer_goes_back (b : Signalbot router) (a : nat) (c : Chat router)
    (sender : string) (group_id : list Z) (text : string) :
  b_heap b !! a = Some c ->
  c_id c = get_chat_id_from_sender_and_group_id sender group_id ->
  reply a text b = Ret tt (with_log [sent_to sender group_id text []] b)
  /\ error a text b
     = Ret tt (with_log [sent_to sender group_id (text +:+ cross_mark) []] b)
  /\ success a text b
     = Ret tt (with_log [sent_to sender group_id (text +:+ check_mark) []] b)
  /\ (is_group (c_id c) = true <-> group_id <> []).
Proof.
  intros Hc Hid. unfold reply, error, success, send_error, send_success.
  rewrite !(send_message_ok _ _ a c sender group_id b Hc Hid).
  repeat split; rewrite Hid; destruct group_id; cbn; congruence.
Qed.
End BotFacts.

Lemma X8_witness :
  let b : Signalbot nat :=
    mkBot (mkConfig None [] None [] []) [] [] [Chat_new (IdGroup [7; 8])] [] in
  error 0 "no" b
  = Ret tt (mkBot (mkConfig None [] None [] []) [] [] [Chat_new (IdGroup [7; 8])]
              [SendGroupMessage ("no" +:+ cross_mark) [] [7; 8]]).
Proof.
  cbv zeta.
  apply (proj1 (proj2 (X8_answer_goes_back
           (mkBot (mkConfig None [] None [] []) [] [] [Chat_new (IdGroup [7; 8])] [])
           0%nat (Chat_new (IdGroup [7; 8])) "+1" [7; 8] "no" eq_refl eq_refl))).
Defined.

Section TriageFacts.
Context {router : Type}.
Implicit Types (b : Signalbot router) (c : Chat router).

Lemma triagemessage_arrival ts sender gid text att cwd b :
  triagemessage ts sender gid text att cwd b
  = let i := get_chat_id_from_sender_and_group_id sender gid in
    let message := mkMessage ts (fst (arrival b i)) sender text att in
    if String.prefix "//" text then master_message message (snd (arrival b i))
    else bind (Chat_triagemessage (fst (arrival b i)) message)
              (fun _ => if cwd then ret tt else raise CwdChanged)
              (snd (arrival b i)).
Proof.
  unfold triagemessage, arrival. cbv zeta. unfold bind at 1. unfold get at 1.
  destruct (dict_get _ (b_chats b)) as [a|]; cbn [fst snd m_text].
  - unfold bind at 1. unfold ret at 1. destruct (String.prefix "//" text); reflexivity.
  - unfold bind at 1. unfold new_Chat, bind, get, set_heap, ret.
    destruct (String.prefix "//" text); reflexivity.
Qed.

Lemma arrival_object b i :
  chats_valid b ->
  exists c, b_heap (snd (arrival b i)) !! fst (arrival b i) = Some c /\ c_id c = i
            /\ (dict_get i (b_chats b) = None -> c = Chat_new i).
Proof.
  intros Hv. unfold arrival. destruct (dict_get i (b_chats b)) as [a|] eqn:Hg.
  - destruct (Hv i a Hg) as (c & Hc & Hid). exists c. cbn. split; [exact Hc|].
    split; [exact Hid | discriminate].
  - exists (Chat_new i). cbn. split; [|split; reflexivity].
    rewrite lookup_app_r by lia. rewrite Nat.sub_diag. reflexivity.
Qed.

(** X9. Only the master commands the bot.  A message that begins with
    ["//"] and whose sender is not the master of the configuration (no one
    is, when [master] is [None]) is answered with
    ["You are not my master. ❌"], sent to the group or the sender it came
    from; the configuration, the chats and the routers stay as they are and
    no router is called. *)
Theorem X9_only_the_master_commands (b : Signalbot router) (ts : Z)
    (sender : string) (gid : list Z) (text : string) (att : list string)
    (cwd : bool) :
  chats_valid b ->
  String.prefix "//" text = true ->
  cfg_master (b_config b) <> Some sender ->
  triagemessage ts sender gid text att cwd b
  = Ret tt (with_log [sent_to sender gid ("You are not my master." +:+ cross_mark) []]
              (snd (arrival b (get_chat_id_from_sender_and_group_id sender gid)))).
Proof.
  intros Hv Hp Hm. rewrite triagemessage_arrival. cbv zeta. rewrite Hp.
  destruct (arrival_object b (get_chat_id_from_sender_and_group_id sender gid) Hv)
    as (c & Hc & Hid & _).
  unfold master_message, bind at 1. unfold get at 1. cbn [m_sender m_chat].
  assert (Hcfg : b_config (snd (arrival b (get_chat_id_from_sender_and_group_id sender gid)))
                 = b_config b).
  { unfold arrival. destruct (dict_get _ (b_chats b)); reflexivity. }
  rewrite Hcfg. rewrite bool_decide_eq_false_2 by exact Hm. cbn [negb].
  unfold error, send_error. apply (send_message_ok _ _ _ c sender gid _ Hc Hid).
Qed.

(** X10. A message of the master whose first word after ["//"] is none of
    the five commands is answered with ["Invalid command. ❌"] and changes
    nothing else; [params[0]] is always there, because [split] never gives
    an empty list. *)
Theorem X10_invalid_command (b : Signalbot router) (ts : Z)
    (sender : string) (gid : list Z) (text : string) (att : list string)
    (cwd : bool) :
  chats_valid b ->
  String.prefix "//" text = true ->
  cfg_master (b_config b) = Some sender ->
  (forall command params,
     split_space (str_drop 2 text) = command :: params -> command ∉ commands) ->
  triagemessage ts sender gid text att cwd b
  = Ret tt (with_log [sent_to sender gid ("Invalid command." +:+ cross_mark) []]
              (snd (arrival b (get_chat_id_from_sender_and_group_id sender gid)))).
Proof.
  intros Hv Hp Hm Hcmd. rewrite triagemessage_arrival. cbv zeta. rewrite Hp.
  destruct (arrival_object b (get_chat_id_from_sender_and_group_id sender gid) Hv)
    as (c & Hc & Hid & _).
  unfold master_message, bind at 1. unfold get at 1. cbn [m_sender m_chat m_text].
  assert (Hcfg : b_config (snd (arrival b (get_chat_id_from_sender_and_group_id sender gid)))
                 = b_config b).
  { unfold arrival. destruct (dict_get _ (b_chats b)); reflexivity. }
  rewrite Hcfg. rewrite bool_decide_eq_true_2 by exact Hm. cbn [negb].
  destruct (split_space (str_drop 2 text)) as [|command params] eqn:Hs.
  { exfalso. destruct (str_drop 2 text) as [|ch s]; cbn in Hs; [discriminate|].
    destruct (Ascii.eqb ch space); [discriminate|].
    destruct (split_space s); discriminate. }
  specialize (Hcmd command params eq_refl). unfold commands in Hcmd.
  rewrite !not_elem_of_cons in Hcmd. destruct Hcmd as (H1 & H2 & H3 & H4 & H5 & _).
  rewrite !bool_decide_eq_false_2 by assumption.
  unfold error, send_error. apply (send_message_ok _ _ _ c sender gid _ Hc Hid).
Qed.

(** X11. A message that does not begin with ["//"] is given to the
    routers of its chat, once each, in the order in which the plugins were
    enabled; a chat that is not stored gets a [Chat] object that is not
    stored either, and no router is called.  The configuration, the chats
    and the routers stay as they are.  The method raises only when line
    222 finds another working directory, after the routers were called. *)
Theorem X11_message_goes_to_routers (b : Signalbot router) (ts : Z)
    (sender : string) (gid : list Z) (text : string) (att : list string)
    (cwd : bool) :
  chats_valid b ->
  String.prefix "//" text = false ->
  let i := get_chat_id_from_sender_and_group_id sender gid in
  exists c, b_heap (snd (arrival b i)) !! fst (arrival b i) = Some c
    /\ c_id c = i
    /\ (dict_get i (b_chats b) = None -> c_plugin_routers c = [])
    /\ triagemessage ts sender gid text att cwd b
       = let b' :=
           with_log (map (fun kr => RouterTriage (snd kr)
                                      (mkMessage ts (fst (arrival b i)) sender text att))
                         (c_plugin_routers c))
                    (snd (arrival b i)) in
         if cwd then Ret tt b' else Raise CwdChanged b'.
Proof.
  intros Hv Hp i. rewrite triagemessage_arrival. cbv zeta. rewrite Hp.
  destruct (arrival_object b i Hv) as (c & Hc & Hid & Hnew).
  exists c. split; [exact Hc|]. split; [exact Hid|]. split.
  - intros Hn. rewrite (Hnew Hn). reflexivity.
  - fold i. unfold bind at 1. unfold Chat_triagemessage, bind at 1.
    rewrite (deref_ok _ c _ Hc). rewrite for_each_emit.
    destruct cwd; reflexivity.
Qed.
End TriageFacts.

Lemma example_bot_valid : chats_valid example_bot.
Proof.
  assert (Hc : b_chats example_bot
               = [(IdSender "+100", 0%nat); (IdGroup [1; 2; 3], 1%nat)])
    by (vm_compute; reflexivity).
  intros i a H. rewrite Hc in H. cbn [dict_get] in H.
  destruct (decide (i = IdSender "+100")) as [->|_].
  - injection H as <-. eexists. split; vm_compute; reflexivity.
  - destruct (decide (i = IdGroup [1; 2; 3])) as [->|_]; [|discriminate].
    injection H as <-. eexists. split; vm_compute; reflexivity.
Qed.

Lemma X9_witness :
  triagemessage 1 "+100" [] "//enable dice" [] true example_bot
  = Ret tt (with_log [SendMessage ("You are not my master." +:+ cross_mark) []
                        [IdSender "+100"]] example_bot).
Proof.
  apply (X9_only_the_master_commands example_bot 1 "+100" [] "//enable dice" [] true).
  - exact example_bot_valid.
  - reflexivity.
  - vm_compute. discriminate.
Defined.

Lemma X10_witness :
  triagemessage 1 "+999" [] "//enabel dice" [] true example_bot
  = Ret tt (with_log [SendMessage ("Invalid command." +:+ cross_mark) []
                        [IdSender "+999"]]
              (with_object (Chat_new (IdSender "+999")) example_bot)).
Proof.
  apply (X10_invalid_command example_bot 1 "+999" [] "//enabel dice" [] true).
  - exact example_bot_valid.
  - reflexivity.
  - reflexivity.
  - intros command params H. vm_compute in H. injection H as <- <-.
    unfold commands. rewrite !not_elem_of_cons. repeat split; try discriminate.
    intros H. inversion H.
Defined.

Lemma X11_witness :
  triagemessage 5 "+100" [1; 2; 3] "roll" [] true example_bot
  = Ret tt (with_log
              [RouterTriage ("echo", false) (mkMessage 5 1 "+100" "roll" []);
               RouterTriage ("dice", false) (mkMessage 5 1 "+100" "roll" [])]
              example_bot).
Proof.
  destruct (X11_message_goes_to_routers example_bot 5 "+100" [1; 2; 3] "roll" []
              true example_bot_valid eq_refl) as (c & Hc & _ & _ & Heq).
  vm_compute in Hc. injection Hc as <-. exact Heq.
Defined.
